(** * linear-custom-import: name resolution, row normalisation, import loop

    A shallow embedding of the logic of [linear-custom-import.js]
    (team resolution, lookup construction, per-row field coercion and the
    success / failure accounting loop), together with the properties of
    that logic stated in the specification.

    Conventions.
    - A JavaScript string is modelled as a [string] whose characters are
      the code units 0..255 (the Latin-1 range); [trim], [toLowerCase],
      [split] and [parseInt] follow ECMAScript on that range.
    - A JavaScript Number produced by [parseInt] is modelled by [number]:
      NaN, the two zeros, the two infinities and the finite non-zero
      integers that are binary64 values.
    - A plain object used as a dictionary is its table of own properties
      (a [gmap]) read through [get], which falls back on the members every
      object literal inherits from [Object.prototype].
    - The remote services are collaborators: the issue-creation call is a
      function on an abstract world, console output is a list of events. *)

From Stdlib Require Import ZArith Lia Ascii.
From stdpp Require Import base strings gmap list.

(** ** Strings *)

Module JsString.

Definition codeUnit (c : ascii) : N := N_of_ascii c.

(** WhiteSpace and LineTerminator code units below 256: TAB, LF, VT, FF,
    CR, SP and NBSP. *)
Definition isWhiteSpace (c : ascii) : bool :=
  let n := codeUnit c in
  ((9 <=? n) && (n <=? 13) || (n =? 32) || (n =? 160))%N.

Fixpoint trimStart (s : string) : string :=
  match s with
  | EmptyString => EmptyString
  | String c s' => if isWhiteSpace c then trimStart s' else s
  end.

Fixpoint trimEnd (s : string) : string :=
  match s with
  | EmptyString => EmptyString
  | String c s' =>
      match trimEnd s' with
      | EmptyString => if isWhiteSpace c then EmptyString else String c EmptyString
      | t => String c t
      end
  end.

(** [String.prototype.trim] *)
Definition trim (s : string) : string := trimEnd (trimStart s).

(** Lower-case mapping of one code unit: A-Z, and the Latin-1 capitals
    U+00C0..U+00DE except the multiplication sign U+00D7. *)
Definition lowerUnit (c : ascii) : ascii :=
  let n := codeUnit c in
  if ((65 <=? n) && (n <=? 90) || (192 <=? n) && (n <=? 222) && negb (n =? 215))%N
  then ascii_of_N (n + 32)
  else c.

(** [String.prototype.toLowerCase] *)
Fixpoint toLowerCase (s : string) : string :=
  match s with
  | EmptyString => EmptyString
  | String c s' => String (lowerUnit c) (toLowerCase s')
  end.

(** [String.prototype.split] with a one-character separator. *)
Fixpoint split (sep : ascii) (s : string) : list string :=
  match s with
  | EmptyString => [EmptyString]
  | String c s' =>
      if Ascii.eqb c sep then EmptyString :: split sep s'
      else match split sep s' with
           | h :: t => String c h :: t
           | [] => [String c EmptyString]
           end
  end.

(** ToBoolean on a string: only the empty string is falsy. *)
Definition truthy (s : string) : bool :=
  match s with EmptyString => false | String _ _ => true end.

End JsString.

(** ** Numbers *)

Module JsNumber.

Local Open Scope Z_scope.

(** The Number values [parseInt] can return.  [Int z] stands for the
    finite non-zero or positive-zero integer [z]. *)
Inductive number : Type :=
| NaN
| NegZero
| Int (z : Z)
| PosInfinity
| NegInfinity.

Global Instance number_eq_dec : EqDecision number.
Proof. solve_decision. Defined.

(** Round a positive integer to the nearest binary64 value, ties to the
    even significand; [None] when the result overflows. *)
Definition roundBinary64 (m : Z) : option Z :=
  let e := Z.log2 m - 52 in
  if e <=? 0 then Some m
  else
    let q := m / 2 ^ e in
    let r := m mod 2 ^ e in
    let half := 2 ^ (e - 1) in
    let q' := if r <? half then q
              else if half <? r then q + 1
              else if Z.even q then q else q + 1 in
    let v := q' * 2 ^ e in
    if 2 ^ 1024 <=? v then None else Some v.

(** The Number for [sign * mathInt], as in the last two steps of
    [parseInt]: a zero keeps the sign, anything else is rounded. *)
Definition toNumber (negative : bool) (mathInt : Z) : number :=
  if mathInt =? 0 then (if negative then NegZero else Int 0)
  else match roundBinary64 mathInt with
       | Some v => Int (if negative then - v else v)
       | None => if negative then NegInfinity else PosInfinity
       end.

(** ToBoolean on a Number: NaN and both zeros are falsy. *)
Definition truthy (n : number) : bool :=
  match n with
  | NaN | NegZero => false
  | Int z => negb (z =? 0)
  | PosInfinity | NegInfinity => true
  end.

(** [n || d] *)
Definition orElse (n d : number) : number := if truthy n then n else d.

(** Value of a code unit as a digit: 0-9, then a-z and A-Z as 10..35. *)
Definition digitValue (c : ascii) : option Z :=
  let n := Z.of_N (JsString.codeUnit c) in
  if (48 <=? n) && (n <=? 57) then Some (n - 48)
  else if (97 <=? n) && (n <=? 122) then Some (n - 87)
  else if (65 <=? n) && (n <=? 90) then Some (n - 55)
  else None.

Definition radixDigit (R : Z) (c : ascii) : option Z :=
  match digitValue c with
  | Some d => if d <? R then Some d else None
  | None => None
  end.

(** The longest prefix of radix-[R] digits. *)
Fixpoint takeDigits (R : Z) (s : string) : list Z :=
  match s with
  | EmptyString => []
  | String c s' =>
      match radixDigit R c with
      | Some d => d :: takeDigits R s'
      | None => []
      end
  end.

Definition mathInt (R : Z) (ds : list Z) : Z :=
  fold_left (fun acc d => acc * R + d) ds 0.

(** The sign step of [parseInt]. *)
Definition stripSign (s : string) : bool * string :=
  match s with
  | String "-"%char r => (true, r)
  | String "+"%char r => (false, r)
  | _ => (false, s)
  end.

(** The prefix step of [parseInt] when no radix is passed: [0x] or [0X]
    selects radix 16, anything else radix 10. *)
Definition stripPrefix (s : string) : Z * string :=
  match s with
  | String "0"%char (String "x"%char r) => (16, r)
  | String "0"%char (String "X"%char r) => (16, r)
  | _ => (10, s)
  end.

(** [parseInt(string)] with the radix argument omitted. *)
Definition parseInt (s : string) : number :=
  let '(negative, s1) := stripSign (JsString.trimStart s) in
  let '(R, s2) := stripPrefix s1 in
  match takeDigits R s2 with
  | [] => NaN
  | ds => toNumber negative (mathInt R ds)
  end.

End JsNumber.

Import JsString JsNumber.

(** ** Values and objects *)

(** The values a dictionary read can yield here: [undefined], a string, or
    a member inherited from [Object.prototype] (a built-in function, or the
    prototype object itself for [__proto__]). *)
Inductive value : Type :=
| VUndefined
| VString (s : string)
| VInherited (member : string).

Global Instance value_eq_dec : EqDecision value.
Proof. solve_decision. Defined.

Module JsObject.

(** Property names of [Object.prototype]; every object literal [{}]
    inherits them. *)
Definition objectPrototype : list string :=
  [ "constructor"; "__defineGetter__"; "__defineSetter__"; "hasOwnProperty";
    "__lookupGetter__"; "__lookupSetter__"; "isPrototypeOf";
    "propertyIsEnumerable"; "toString"; "valueOf"; "__proto__";
    "toLocaleString" ].

Definition inherited (k : string) : bool := bool_decide (k ∈ objectPrototype).

(** [o[k]]: an own property first, then the prototype, else [undefined]. *)
Definition get (o : gmap string string) (k : string) : value :=
  match o !! k with
  | Some v => VString v
  | None => if inherited k then VInherited k else VUndefined
  end.

(** [o[k] = v] for a string [v]: creates or overwrites an own property,
    except that the [__proto__] setter ignores a primitive. *)
Definition set (o : gmap string string) (k v : string) : gmap string string :=
  if bool_decide (k = "__proto__") then o else <[k := v]> o.

(** ToBoolean: functions and objects are truthy. *)
Definition truthy (v : value) : bool :=
  match v with
  | VUndefined => false
  | VString s => JsString.truthy s
  | VInherited _ => true
  end.

End JsObject.

Import JsObject.

(** ** Console output *)

Inductive event : Type :=
| WarnNotUuid (selection : string)
| AttemptNameMatch
| ResolvedTeam (teamId : string)
| UnresolvedTeam (selection : string)
| CheckSelection
| UsingTeam (teamId : string)
| NoTeams
| FetchingStatesAndLabels
| Mapped (statuses labels : nat)
| Importing (rows : nat)
| CreatedUrl (title url : string)
| CreatedId (title payloadId : string)
| Failed (title message : string)
| Done (successCount failCount : nat).

(** ** Team resolver (section 3 of [main], "DEBUG & VALIDATION") *)

Record Team : Type := { team_id : string; team_key : string; team_name : string }.

Module Regex.

(** The three kinds of atom of [uuidRegex]. *)
Inductive atom : Type :=
| HexDigit       (* [0-9a-fA-F] *)
| WordBoundary   (* \b *)
| Dash.          (* - *)

Definition isHexDigit (c : ascii) : bool :=
  let n := codeUnit c in
  ((48 <=? n) && (n <=? 57) || (97 <=? n) && (n <=? 102)
   || (65 <=? n) && (n <=? 70))%N.

(** \w: [A-Za-z0-9_] *)
Definition isWordChar (c : ascii) : bool :=
  let n := codeUnit c in
  ((48 <=? n) && (n <=? 57) || (97 <=? n) && (n <=? 122)
   || (65 <=? n) && (n <=? 90) || (n =? 95))%N.

Definition isWordAt (c : option ascii) : bool :=
  match c with Some c => isWordChar c | None => false end.

Definition next (s : string) : option ascii :=
  match s with EmptyString => None | String c _ => Some c end.

(** Match a sequence of atoms from the current position to the end of the
    input ([$] without the multiline flag); [prev] is the character just
    before the position. *)
Fixpoint matchAtoms (p : list atom) (prev : option ascii) (s : string) : bool :=
  match p with
  | [] => negb (JsString.truthy s)
  | HexDigit :: p' =>
      match s with
      | String c s' => isHexDigit c && matchAtoms p' (Some c) s'
      | EmptyString => false
      end
  | Dash :: p' =>
      match s with
      | String c s' => Ascii.eqb c "-" && matchAtoms p' (Some c) s'
      | EmptyString => false
      end
  | WordBoundary :: p' =>
      xorb (isWordAt prev) (isWordAt (next s)) && matchAtoms p' prev s
  end.

(** [regex.test(s)] for a pattern anchored with [^]. *)
Definition test (p : list atom) (s : string) : bool := matchAtoms p None s.

End Regex.

(** /^[0-9a-fA-F]{8}\b-[0-9a-fA-F]{4}\b-[0-9a-fA-F]{4}\b-[0-9a-fA-F]{4}\b-[0-9a-fA-F]{12}$/ *)
Definition uuidRegex : list Regex.atom :=
  repeat Regex.HexDigit 8 ++ [Regex.WordBoundary; Regex.Dash] ++
  repeat Regex.HexDigit 4 ++ [Regex.WordBoundary; Regex.Dash] ++
  repeat Regex.HexDigit 4 ++ [Regex.WordBoundary; Regex.Dash] ++
  repeat Regex.HexDigit 4 ++ [Regex.WordBoundary; Regex.Dash] ++
  repeat Regex.HexDigit 12.

(** How a phase of [main] ends: it goes on with a value, or the process
    exits with a status code. *)
Inductive outcome (A : Type) : Type :=
| Continue (a : A)
| Exit (code : Z).
Arguments Continue {A} a.
Arguments Exit {A} code.

(** [`[${t.key}] ${t.name}`] *)
Definition teamChoiceName (t : Team) : string :=
  "[" +:+ team_key t +:+ "] " +:+ team_name t.

(** The predicate passed to [teams.nodes.find]. *)
Definition teamMatches (targetTeamId : string) (t : Team) : bool :=
  bool_decide (team_name t = targetTeamId)
  || bool_decide (team_key t = targetTeamId)
  || bool_decide (teamChoiceName t = targetTeamId).

(** Lines 99-125: the selection is kept when it looks like a UUID, else it
    is searched among the teams; no match is [process.exit(1)]. *)
Definition resolveTeam (teams : list Team) (targetTeamId : string)
  : list event * outcome string :=
  if negb (Regex.test uuidRegex targetTeamId) then
    let warning := [WarnNotUuid targetTeamId; AttemptNameMatch] in
    match List.find (teamMatches targetTeamId) teams with
    | Some matchedTeam =>
        (warning ++ [ResolvedTeam (team_id matchedTeam)],
         Continue (team_id matchedTeam))
    | None =>
        (warning ++ [UnresolvedTeam targetTeamId; CheckSelection], Exit 1)
    end
  else ([UsingTeam targetTeamId], Continue targetTeamId).

(** ** Lookup builder (section 4 of [main]) *)

(** A workflow state or a label as the workspace query returns it. *)
Record Node : Type := { node_name : string; node_id : string }.

(** [nodes.forEach(n => { map[n.name.toLowerCase()] = n.id })] on [{}]. *)
Definition buildLookup (nodes : list Node) : gmap string string :=
  fold_left (fun m n => set m (toLowerCase (node_name n)) (node_id n)) nodes ∅.

(** ** Row normaliser (body of the import loop, lines 169-196 and 200-208) *)

(** The argument of [createIssue]; an absent field is [undefined]. *)
Record IssueRequest : Type := {
  teamId : string;
  title : string;
  description : string;
  priority : number;
  estimate : option number;
  stateId : value;
  labelIds : option (list value)
}.

(** [row[k]] when it is truthy.  The column names read by the loop are not
    members of [Object.prototype], so a missing column reads [undefined]. *)
Definition field (row : gmap string string) (k : string) : option string :=
  match row !! k with
  | Some s => if JsString.truthy s then Some s else None
  | None => None
  end.

(** [labelNames.forEach(name => { if (labelMap[name]) labelIds.push(labelMap[name]) })] *)
Definition pushLabels (labelMap : gmap string string) (labelNames : list string)
  : list value :=
  fold_left
    (fun labelIds name =>
       if JsObject.truthy (get labelMap name)
       then labelIds ++ [get labelMap name] else labelIds)
    labelNames [].

Definition normalizeRow (targetTeamId : string)
    (statusMap labelMap : gmap string string) (row : gmap string string)
  : IssueRequest :=
  let title := default "Untitled Issue" (field row "Title") in
  let description := default "" (field row "Description") in
  let priority :=
    match field row "Priority" with
    | Some s => orElse (parseInt s) (Int 0)
    | None => Int 0
    end in
  let estimate :=
    match field row "Estimate" with
    | Some s => Some (parseInt s)
    | None => None
    end in
  let stateId :=
    match field row "Status" with
    | Some s => let statusName := toLowerCase (trim s) in get statusMap statusName
    | None => VUndefined
    end in
  let labelIds :=
    match field row "Labels" with
    | Some s =>
        let labelNames := List.map (fun s => toLowerCase (trim s)) (split "," s) in
        pushLabels labelMap labelNames
    | None => []
    end in
  {| teamId := targetTeamId;
     title := title;
     description := description;
     priority := priority;
     estimate := estimate;
     stateId := stateId;
     labelIds := if (0 <? length labelIds)%nat then Some labelIds else None |}.

(** ** The specification's vocabulary

    Definitions that follow the words of the specification, against which
    the definitions above (taken from the code) are compared. *)

Module Spec.

(** "hex digit", case-insensitive *)
Definition hexDigit (c : ascii) : Prop :=
  c ∈ String.list_ascii_of_string "0123456789abcdefABCDEF".

(** A run of exactly [n] hex digits. *)
Definition hexRun (n : nat) (s : string) : Prop :=
  String.length s = n ∧ Forall hexDigit (String.list_ascii_of_string s).

(** "eight hex digits, dash, four hex, dash, four hex, dash, four hex,
    dash, twelve hex" *)
Definition identifierShaped (s : string) : Prop :=
  ∃ a b c d e,
    s = a +:+ "-" +:+ b +:+ "-" +:+ c +:+ "-" +:+ d +:+ "-" +:+ e
    ∧ hexRun 8 a ∧ hexRun 4 b ∧ hexRun 4 c ∧ hexRun 4 d ∧ hexRun 12 e.

(** A team "whose name, or whose key, or whose composed [[key] name]
    string exactly equals the selection". *)
Definition displayedAs (selection : string) (t : Team) : Prop :=
  team_name t = selection
  ∨ team_key t = selection
  ∨ "[" +:+ team_key t +:+ "] " +:+ team_name t = selection.

(** The labels a [Labels] cell resolves to: its comma-separated, trimmed,
    lower-cased tokens that are keys of the lookup, each replaced by its
    identifier, in token order, duplicates kept. *)
Definition resolvedLabels (labelMap : gmap string string) (cell : string)
  : list value :=
  omap (fun token => VString <$> labelMap !! toLowerCase (trim token))
       (split "," cell).

(** "collapses to absent when empty" *)
Definition collapse (ids : list value) : option (list value) :=
  match ids with [] => None | _ => Some ids end.

Definition decimalDigit (c : ascii) : Prop :=
  c ∈ String.list_ascii_of_string "0123456789".

(** The integer a string of decimal digits denotes. *)
Definition decimalValue (digits : string) : Z :=
  fold_left (fun acc c => acc * 10 + (Z.of_N (N_of_ascii c) - 48))%Z
            (String.list_ascii_of_string digits) 0%Z.

(** [s] "begins with a decimal integer prefix followed by non-numeric
    text": [s] is [digits] then [rest], where [digits] is a non-empty run of
    decimal digits and [rest] does not go on with a digit. *)
Definition decimalPrefixed (s digits rest : string) : Prop :=
  s = digits +:+ rest
  ∧ digits ≠ ""
  ∧ Forall decimalDigit (String.list_ascii_of_string digits)
  ∧ match rest with EmptyString => True | String c _ => ¬ decimalDigit c end.

(** [s] starts with the hexadecimal marker [0x] or [0X]. *)
Definition hexMarked (s : string) : Prop :=
  ∃ r, s = "0x" +:+ r ∨ s = "0X" +:+ r.

End Spec.

(** ** Import driver (section 6 of [main]) *)

(** What the [try] block observes of the issue-creation collaborator:
    [createIssue] rejects with an error, or it resolves and the read of
    [issuePayload.issue] rejects, or that read yields nothing, or it yields
    the issue and its URL.  An error carries its [message]. *)
Inductive creation : Type :=
| CreateRejected (message : string)
| IssueRejected (message : string)
| IssueMissing (payloadId : string)
| IssueCreated (issueUrl : string).

Section ImportDriver.

Context {World : Type}.

(** The collaborator: one call on a request, in the current state of the
    remote workspace. *)
Variable createIssue : IssueRequest → World → creation * World.

(** The variables the loop updates. *)
Record tally : Type := {
  successCount : nat;
  failCount : nat;
  console : list event;
  world : World
}.

(** One iteration of [for (const row of results)]. *)
Definition importRow (targetTeamId : string)
    (statusMap labelMap : gmap string string)
    (st : tally) (row : gmap string string) : tally :=
  let request := normalizeRow targetTeamId statusMap labelMap row in
  let '(result, w) := createIssue request (world st) in
  match result with
  | IssueCreated issueUrl =>
      {| successCount := S (successCount st);
         failCount := failCount st;
         console := console st ++ [CreatedUrl (title request) issueUrl];
         world := w |}
  | IssueMissing payloadId =>
      {| successCount := S (successCount st);
         failCount := failCount st;
         console := console st ++ [CreatedId (title request) payloadId];
         world := w |}
  | CreateRejected message | IssueRejected message =>
      {| successCount := successCount st;
         failCount := S (failCount st);
         console := console st ++ [Failed (title request) message];
         world := w |}
  end.

Definition importLoop (targetTeamId : string)
    (statusMap labelMap : gmap string string)
    (st : tally) (results : list (gmap string string)) : tally :=
  fold_left (importRow targetTeamId statusMap labelMap) results st.

(** The [end] handler of the CSV stream: counters start at zero, every row
    is processed in order, the tally is printed last. *)
Definition importAll (targetTeamId : string)
    (statusMap labelMap : gmap string string)
    (results : list (gmap string string)) (w : World) : tally :=
  let st := importLoop targetTeamId statusMap labelMap
              {| successCount := 0; failCount := 0;
                 console := [Importing (length results)]; world := w |}
              results in
  {| successCount := successCount st;
     failCount := failCount st;
     console := console st ++ [Done (successCount st) (failCount st)];
     world := world st |}.

(** [main] from the team list on (sections 3 to 6).  What comes before
    (the API key, the connection, the choice of the CSV file) only supplies
    the inputs: [teams] and [selection] come from the workspace and the
    prompt, [workflowStates] is the query filtered by team id, [go] is the
    answer to the confirmation, [results] the rows parsed from the file. *)
Definition main (teams : list Team) (selection : string)
    (workflowStates : string → list Node) (issueLabels : list Node)
    (go : bool) (results : list (gmap string string)) (w : World)
  : list event * outcome tally :=
  match teams with
  | [] => ([NoTeams], Exit 1)
  | _ =>
      match resolveTeam teams selection with
      | (out, Exit code) => (out, Exit code)
      | (out, Continue targetTeamId) =>
          let statusMap := buildLookup (workflowStates targetTeamId) in
          let labelMap := buildLookup issueLabels in
          let out := out ++ [FetchingStatesAndLabels;
                             Mapped (size statusMap) (size labelMap)] in
          if negb go then (out, Exit 0)
          else
            let st := importAll targetTeamId statusMap labelMap results w in
            (out ++ console st, Continue st)
      end
  end.

End ImportDriver.

Arguments tally : clear implicits.

(** ** Start of [main] (sections 1 and 2) and the team prompt *)

(** [const HARDCODED_API_KEY = ""] *)
Definition HARDCODED_API_KEY : string := "".

(** [String.prototype.startsWith] from position 0. *)
Fixpoint startsWith (s searchString : string) {struct searchString} : bool :=
  match searchString with
  | EmptyString => true
  | String p searchString' =>
      match s with
      | EmptyString => false
      | String c s' => Ascii.eqb c p && startsWith s' searchString'
      end
  end.

(** The answer of the [validate] callback of the key prompt: [true], or the
    message that the key format is invalid. *)
Inductive validation : Type :=
| Accepted
| InvalidKeyFormat.

(** [input => input.startsWith('lin_api_') ? true : 'Invalid key format...'] *)
Definition validate (input : string) : validation :=
  if startsWith input "lin_api_" then Accepted else InvalidKeyFormat.

(** An entry of the team prompt. *)
Record Choice : Type := { choice_name : string; choice_value : string }.

(** [teams.nodes.map(t => ({ name: `[${t.key}] ${t.name}`, value: t.id }))] *)
Definition teamChoices (teams : list Team) : list Choice :=
  List.map (fun t => {| choice_name := teamChoiceName t; choice_value := team_id t |})
           teams.

(** What [main] prints before the team list is there. *)
Inductive startupEvent : Type :=
| Starting
| ConnectedAs (viewerName : string)
| ConnectFailed
| ScanningCsv
| NoCsvFiles
| FetchingTeams.

(** The whole of [main].  [promptedKey] is the key typed at the prompt,
    [viewer] the connection attempt (the name of the user, or a failure),
    [csvFiles] the files found by the scan, [filePath] the file picked,
    [readCsv] the rows a file parses to; the workspace queries for teams,
    states and labels are taken to succeed. *)
Definition program {World : Type}
    (createIssue : IssueRequest → World → creation * World)
    (promptedKey : string) (viewer : string → option string)
    (csvFiles : list string) (filePath : string)
    (readCsv : string → list (gmap string string))
    (teams : list Team) (selection : string)
    (workflowStates : string → list Node) (issueLabels : list Node)
    (go : bool) (w : World)
  : list startupEvent * list event * outcome (tally World) :=
  let apiKey :=
    if JsString.truthy HARDCODED_API_KEY then HARDCODED_API_KEY else promptedKey in
  match viewer apiKey with
  | None => ([Starting; ConnectFailed], [], Exit 1)
  | Some viewerName =>
      match csvFiles with
      | [] => ([Starting; ConnectedAs viewerName; ScanningCsv; NoCsvFiles], [], Exit 1)
      | _ =>
          let '(out, result) :=
            main createIssue teams selection workflowStates issueLabels go
                 (readCsv filePath) w in
          ([Starting; ConnectedAs viewerName; ScanningCsv; FetchingTeams], out, result)
      end
  end.

(** ** Reading the console *)

(** The title a per-row line is about. *)
Definition lineTitle (e : event) : option string :=
  match e with
  | CreatedUrl title _ | CreatedId title _ | Failed title _ => Some title
  | _ => None
  end.

Definition isCreatedLine (e : event) : bool :=
  match e with CreatedUrl _ _ | CreatedId _ _ => true | _ => false end.

Definition isFailedLine (e : event) : bool :=
  match e with Failed _ _ => true | _ => false end.

(** [Array.prototype.join] with a one-character separator. *)
Fixpoint join (sep : ascii) (parts : list string) : string :=
  match parts with
  | [] => ""
  | [part] => part
  | part :: parts' => part +:+ String sep (join sep parts')
  end.

(** A string made of white space only. *)
Definition blank (s : string) : Prop :=
  Forall (fun c => isWhiteSpace c = true) (String.list_ascii_of_string s).

(** ** Sample data

    A small workspace and a collaborator used to run the definitions. *)

Definition sampleTeams : list Team :=
  [ {| team_id := "9b2f0c1e-7a44-4d0b-8f3e-5c6d7e8f9a0b";
       team_key := "ENG"; team_name := "Engineering" |};
    {| team_id := "0a1b2c3d-4e5f-4a6b-8c7d-9e0f1a2b3c4d";
       team_key := "OPS"; team_name := "Operations" |} ].

Definition sampleStates (teamId : string) : list Node :=
  [ {| node_name := "Todo"; node_id := "S1" |};
    {| node_name := "In Progress"; node_id := "S2" |} ].

Definition sampleLabels : list Node := [ {| node_name := "Bug"; node_id := "L1" |} ].

(** The rows of the end-to-end scenario of the specification. *)
Definition sampleRows : list (gmap string string) :=
  [ {[ "Title" := "Fix login bug"; "Priority" := "1" ]};
    {[ "Title" := ""; "Status" := "Unknown" ]};
    {[ "Labels" := "bug, urgent" ]} ].

(** A workspace that counts the calls it has served and rejects the second
    one; the world is the number of calls so far. *)
Definition flakyCreateIssue (request : IssueRequest) (calls : nat)
  : creation * nat :=
  match calls with
  | 1 => (CreateRejected "Network request failed", S calls)
  | _ => (IssueCreated ("https://linear.app/issue/" +:+ title request), S calls)
  end.

(** * Properties *)

(** ** Reading a row *)

Lemma field_missing (row : gmap string string) k :
  row !! k = None → field row k = None.
Proof. unfold field. by intros ->. Qed.

Lemma field_empty (row : gmap string string) k :
  row !! k = Some "" → field row k = None.
Proof. unfold field. by intros ->. Qed.

Lemma field_filled (row : gmap string string) k s :
  row !! k = Some s → s ≠ "" → field row k = Some s.
Proof. unfold field. intros -> Hs. by destruct s. Qed.

Lemma field_Some_inv (row : gmap string string) k s :
  field row k = Some s → row !! k = Some s ∧ s ≠ "".
Proof.
  unfold field. destruct (row !! k) as [t|]; [|done].
  destruct t; simpl; [done|]. by intros [= <-].
Qed.

(** The six columns the loop reads are not members of [Object.prototype]:
    reading them through the prototype chain changes nothing. *)
Lemma get_column (row : gmap string string) k :
  k ∈ ["Title"; "Description"; "Priority"; "Estimate"; "Status"; "Labels"] →
  get row k = from_option VString VUndefined (row !! k).
Proof.
  intros Hk. unfold get. destruct (row !! k); [done|].
  repeat (apply elem_of_cons in Hk as [-> | Hk]; [reflexivity|]).
  by apply elem_of_nil in Hk.
Qed.

(** Deleting a column whose cell is empty does not change what is read. *)
Lemma field_delete_empty (row : gmap string string) k k' :
  row !! k = Some "" → field (delete k row) k' = field row k'.
Proof.
  intros Hk. unfold field. destruct (decide (k = k')) as [<- | Hne].
  - by rewrite lookup_delete_eq, Hk.
  - by rewrite lookup_delete_ne.
Qed.

Lemma normalizeRow_delete_empty targetTeamId statusMap labelMap
    (row : gmap string string) k :
  row !! k = Some "" →
  normalizeRow targetTeamId statusMap labelMap (delete k row)
  = normalizeRow targetTeamId statusMap labelMap row.
Proof.
  intros Hk. unfold normalizeRow.
  by rewrite !(field_delete_empty row k _ Hk).
Qed.

(** ** Dictionary reads *)

Lemma get_own (o : gmap string string) k v : o !! k = Some v → get o k = VString v.
Proof. unfold get. by intros ->. Qed.

Lemma get_unknown (o : gmap string string) k :
  o !! k = None → inherited k = false → get o k = VUndefined.
Proof. unfold get. by intros -> ->. Qed.

Lemma get_inherited (o : gmap string string) k :
  o !! k = None → inherited k = true → get o k = VInherited k.
Proof. unfold get. by intros -> ->. Qed.

(** Away from the inherited names, an unknown status is dropped. *)
Lemma stateId_unknown targetTeamId statusMap labelMap (row : gmap string string) s :
  row !! "Status" = Some s →
  statusMap !! toLowerCase (trim s) = None →
  inherited (toLowerCase (trim s)) = false →
  stateId (normalizeRow targetTeamId statusMap labelMap row) = VUndefined.
Proof.
  intros Hrow Hmiss Hinh. simpl. unfold field. rewrite Hrow.
  destruct (JsString.truthy s); [|done]. by apply get_unknown.
Qed.

Lemma stateId_known targetTeamId statusMap labelMap (row : gmap string string) s v :
  row !! "Status" = Some s → s ≠ "" →
  statusMap !! toLowerCase (trim s) = Some v →
  stateId (normalizeRow targetTeamId statusMap labelMap row) = VString v.
Proof.
  intros Hrow Hs Hv. simpl. rewrite (field_filled _ _ _ Hrow Hs).
  by apply get_own.
Qed.

(** ** Label resolution *)

Lemma pushLabels_app labelMap names acc :
  fold_left
    (fun labelIds name =>
       if JsObject.truthy (get labelMap name)
       then labelIds ++ [get labelMap name] else labelIds)
    names acc
  = acc ++ pushLabels labelMap names.
Proof.
  unfold pushLabels. revert acc.
  induction names as [|name names IH]; intros acc; simpl.
  - by rewrite app_nil_r.
  - destruct (JsObject.truthy (get labelMap name)).
    + rewrite IH, (IH [get labelMap name]).
      by rewrite <- app_assoc.
    + apply IH.
Qed.

Lemma pushLabels_cons labelMap name names :
  pushLabels labelMap (name :: names)
  = (if JsObject.truthy (get labelMap name) then [get labelMap name] else [])
    ++ pushLabels labelMap names.
Proof.
  unfold pushLabels at 1. simpl. rewrite pushLabels_app.
  by destruct (JsObject.truthy (get labelMap name)).
Qed.

(** When no token is an inherited name and no identifier is empty, the loop
    keeps exactly the tokens that are keys of the lookup. *)
Lemma pushLabels_resolved labelMap names :
  (∀ name, name ∈ names → labelMap !! name = None → inherited name = false) →
  (∀ name v, labelMap !! name = Some v → v ≠ "") →
  pushLabels labelMap names = omap (fun name => VString <$> labelMap !! name) names.
Proof.
  intros Hinh Hids. induction names as [|name names IH].
  - reflexivity.
  - rewrite pushLabels_cons, IH by (intros; apply Hinh; [by right|done]).
    simpl. destruct (labelMap !! name) as [v|] eqn:Hv.
    + rewrite (get_own _ _ _ Hv). simpl.
      pose proof (Hids _ _ Hv). by destruct v.
    + rewrite (get_unknown _ _ Hv); [done|]. apply Hinh; [by left|done].
Qed.

Lemma omap_map {A B C} (f : A → B) (g : B → option C) (l : list A) :
  omap g (List.map f l) = omap (fun x => g (f x)) l.
Proof.
  induction l as [|x l IH]; [done|].
  cbn [List.map]. csimpl. by rewrite IH.
Qed.

Lemma collapse_length (ids : list value) :
  (if (0 <? length ids)%nat then Some ids else None) = Spec.collapse ids.
Proof. by destruct ids. Qed.

(** The label list of a request, for a filled [Labels] cell, under the two
    side conditions of [pushLabels_resolved]. *)
Lemma labelIds_resolved targetTeamId statusMap labelMap (row : gmap string string) cell :
  row !! "Labels" = Some cell → cell ≠ "" →
  (∀ token, token ∈ split "," cell →
     labelMap !! toLowerCase (trim token) = None →
     inherited (toLowerCase (trim token)) = false) →
  (∀ name v, labelMap !! name = Some v → v ≠ "") →
  labelIds (normalizeRow targetTeamId statusMap labelMap row)
  = Spec.collapse (Spec.resolvedLabels labelMap cell).
Proof.
  intros Hrow Hcell Hinh Hids. simpl.
  rewrite (field_filled _ _ _ Hrow Hcell), collapse_length.
  unfold Spec.resolvedLabels.
  rewrite <- (omap_map (fun s => toLowerCase (trim s))
                       (fun name => VString <$> labelMap !! name)).
  f_equal.
  apply pushLabels_resolved; [|done].
  intros name [token [<- Htok]]%list_elem_of_In%in_map_iff Hnone.
  apply Hinh; [by apply list_elem_of_In|done].
Qed.

(** ** Claims on the row normaliser *)

(** C1, evaluated where it fails: the claim is that a present [Status]
    whose trimmed, lower-cased value is not a key of the status lookup gives
    an absent [stateId].  For the status text "Constructor" and a lookup
    that only knows "todo", the value read is the member [constructor]
    that the dictionary inherits, not [undefined]. *)
Theorem C1_unknown_status_reads_inherited_member :
  let statusMap := buildLookup [ {| node_name := "Todo"; node_id := "state-1" |} ] in
  let row : gmap string string :=
    {[ "Title" := "Fix login bug"; "Status" := "Constructor" ]} in
  row !! "Status" = Some "Constructor"
  ∧ statusMap !! toLowerCase (trim "Constructor") = None
  ∧ stateId (normalizeRow "team-1" statusMap ∅ row) = VInherited "constructor"
  ∧ stateId (normalizeRow "team-1" statusMap ∅ row) ≠ VUndefined.
Proof. vm_compute. repeat split; congruence. Qed.

(** C2, evaluated where it fails: the claim is that [labelIds] holds
    exactly the identifiers of the tokens that are keys of the label lookup,
    and is absent when no token resolves.  For the cell "bug, constructor"
    and the lookup [{bug: "L1"}], the request carries a second element, the
    member [constructor] that the dictionary inherits; for the cell
    "constructor" alone it carries a one-element list where the claim says
    the field is absent. *)
Theorem C2_labels_keep_inherited_member :
  let labelMap := buildLookup [ {| node_name := "Bug"; node_id := "L1" |} ] in
  let row : gmap string string := {[ "Labels" := "bug, constructor" ]} in
  let alone : gmap string string := {[ "Labels" := "constructor" ]} in
  Spec.collapse (Spec.resolvedLabels labelMap "bug, constructor")
    = Some [VString "L1"]
  ∧ labelIds (normalizeRow "team-1" ∅ labelMap row)
    = Some [VString "L1"; VInherited "constructor"]
  ∧ Spec.collapse (Spec.resolvedLabels labelMap "constructor") = None
  ∧ labelIds (normalizeRow "team-1" ∅ labelMap alone)
    = Some [VInherited "constructor"].
Proof. vm_compute. repeat split; congruence. Qed.

(** C3: for every row missing the [Title] field, the title of the request
    is the literal "Untitled Issue".  [normalizeRow] is a total function:
    there is no path on which such a row is rejected. *)
Theorem C3_missing_title_defaults targetTeamId statusMap labelMap
    (row : gmap string string) :
  row !! "Title" = None →
  title (normalizeRow targetTeamId statusMap labelMap row) = "Untitled Issue".
Proof. intros Hrow. simpl. by rewrite (field_missing _ _ Hrow). Qed.

Lemma C3_missing_title_defaults_witness :
  title (normalizeRow "team-1" ∅ ∅ {[ "Labels" := "bug, urgent" ]})
  = "Untitled Issue".
Proof. apply C3_missing_title_defaults. reflexivity. Defined.

(** C8, as stated, fails on an empty cell: the [Estimate] field is present
    in the row, its text does not parse ([parseInt] of it is NaN), and the
    estimate of the request is absent, not NaN. *)
Lemma C8_empty_estimate_is_absent_not_nan :
  let row : gmap string string := {[ "Title" := "Fix login bug"; "Estimate" := "" ]} in
  row !! "Estimate" = Some ""
  ∧ parseInt "" = NaN
  ∧ estimate (normalizeRow "team-1" ∅ ∅ row) = None
  ∧ estimate (normalizeRow "team-1" ∅ ∅ row) ≠ Some NaN.
Proof. vm_compute. repeat split; congruence. Qed.

(** C8, amended: the estimate of the request is absent when the [Estimate]
    field is missing, and when the field is present and not empty it is the
    result of integer parsing, passed through as it is: NaN when the text
    does not parse. *)
Theorem C8_estimate_absent_or_passed_through targetTeamId statusMap labelMap
    (row : gmap string string) :
  (row !! "Estimate" = None →
   estimate (normalizeRow targetTeamId statusMap labelMap row) = None)
  ∧ (∀ s, row !! "Estimate" = Some s → s ≠ "" →
       estimate (normalizeRow targetTeamId statusMap labelMap row)
       = Some (parseInt s)
       ∧ (parseInt s = NaN →
          estimate (normalizeRow targetTeamId statusMap labelMap row) = Some NaN)).
Proof.
  split.
  - intros Hrow. simpl. by rewrite (field_missing _ _ Hrow).
  - intros s Hrow Hs. simpl. rewrite (field_filled _ _ _ Hrow Hs).
    split; [done|]. by intros ->.
Qed.

Lemma C8_estimate_absent_or_passed_through_witness :
  estimate (normalizeRow "team-1" ∅ ∅ {[ "Title" := "Fix login bug" ]}) = None
  ∧ estimate (normalizeRow "team-1" ∅ ∅ {[ "Estimate" := "soon" ]}) = Some NaN.
Proof.
  split.
  - apply (proj1 (C8_estimate_absent_or_passed_through
                    "team-1" ∅ ∅ {[ "Title" := "Fix login bug" ]})).
    reflexivity.
  - apply (proj2 (C8_estimate_absent_or_passed_through
                    "team-1" ∅ ∅ {[ "Estimate" := "soon" ]}) "soon").
    + reflexivity.
    + discriminate.
    + reflexivity.
Defined.

(** C9: a field whose value is the empty string is treated exactly as if
    the field were missing: the request is the one of the row without that
    column; in particular an empty Title yields "Untitled Issue", an empty
    Priority yields 0, an empty Estimate yields absent, an empty Status
    yields an absent stateId and an empty Labels yields absent labelIds. *)
Theorem C9_empty_cell_as_missing targetTeamId statusMap labelMap
    (row : gmap string string) :
  let request := normalizeRow targetTeamId statusMap labelMap row in
  (∀ k, row !! k = Some "" →
     request = normalizeRow targetTeamId statusMap labelMap (delete k row))
  ∧ (row !! "Title" = Some "" → title request = "Untitled Issue")
  ∧ (row !! "Priority" = Some "" → priority request = Int 0)
  ∧ (row !! "Estimate" = Some "" → estimate request = None)
  ∧ (row !! "Status" = Some "" → stateId request = VUndefined)
  ∧ (row !! "Labels" = Some "" → labelIds request = None).
Proof.
  simpl. split; [|repeat split]; try (intros H; by rewrite (field_empty _ _ H)).
  intros k Hk. symmetry. by apply normalizeRow_delete_empty.
Qed.

Lemma C9_empty_cell_as_missing_witness :
  let row : gmap string string :=
    {[ "Title" := ""; "Priority" := ""; "Estimate" := ""; "Status" := "";
       "Labels" := "" ]} in
  let labelMap := buildLookup [ {| node_name := ""; node_id := "L0" |} ] in
  let request := normalizeRow "team-1" labelMap labelMap row in
  request = normalizeRow "team-1" labelMap labelMap (delete "Title" row)
  ∧ title request = "Untitled Issue"
  ∧ priority request = Int 0
  ∧ estimate request = None
  ∧ stateId request = VUndefined
  ∧ labelIds request = None.
Proof.
  intros row labelMap request.
  pose proof (C9_empty_cell_as_missing "team-1" labelMap labelMap row)
    as (Hdel & Htitle & Hpriority & Hestimate & Hstatus & Hlabels).
  split; [apply (Hdel "Title"); reflexivity|].
  split; [apply Htitle; reflexivity|].
  split; [apply Hpriority; reflexivity|].
  split; [apply Hestimate; reflexivity|].
  split; [apply Hstatus; reflexivity|].
  apply Hlabels; reflexivity.
Defined.

(** ** Integer parsing *)

Section ParseInt.

Local Open Scope Z_scope.

Lemma roundBinary64_exact m : 0 < m ≤ 2 ^ 53 → roundBinary64 m = Some m.
Proof.
  intros [Hpos Hle].
  destruct (decide (m = 2 ^ 53)) as [-> | Hne]; [by vm_compute|].
  unfold roundBinary64.
  assert (Z.log2 m < 53) by (apply Z.log2_lt_pow2; lia).
  destruct (Z.leb_spec (Z.log2 m - 52) 0); [done | lia].
Qed.

Lemma toNumber_exact m : 0 ≤ m ≤ 2 ^ 53 → toNumber false m = Int m.
Proof.
  intros [Hpos Hle]. unfold toNumber.
  destruct (Z.eqb_spec m 0) as [-> | Hne]; [done|].
  rewrite roundBinary64_exact; [done | lia].
Qed.

Lemma decimalDigit_facts c :
  Spec.decimalDigit c →
  radixDigit 10 c = Some (Z.of_N (N_of_ascii c) - 48)
  ∧ 0 ≤ Z.of_N (N_of_ascii c) - 48 ≤ 9
  ∧ isWhiteSpace c = false
  ∧ stripSign (String c "") = (false, String c "").
Proof.
  unfold Spec.decimalDigit. simpl. intros H.
  repeat (apply elem_of_cons in H as [-> | H]; [vm_compute; intuition congruence|]).
  by apply elem_of_nil in H.
Qed.

Lemma not_decimalDigit_radix c : ¬ Spec.decimalDigit c → radixDigit 10 c = None.
Proof.
  intros H.
  destruct c as [[] [] [] [] [] [] [] []]; try reflexivity;
    exfalso; apply H; unfold Spec.decimalDigit; simpl; set_solver.
Qed.

Lemma append_nil r : "" +:+ r = r.
Proof. reflexivity. Qed.

Lemma append_cons c s r : String c s +:+ r = String c (s +:+ r).
Proof. reflexivity. Qed.

Lemma stripPrefix_decimal s : ¬ Spec.hexMarked s → stripPrefix s = (10, s).
Proof.
  intros H. destruct s as [|c0 s]; [done|].
  destruct c0 as [[] [] [] [] [] [] [] []]; try reflexivity.
  destruct s as [|c1 s]; [done|].
  destruct c1 as [[] [] [] [] [] [] [] []]; try reflexivity;
    exfalso; apply H; eexists; (by left) || (by right).
Qed.

Lemma takeDigits_fold digits rest acc :
  Forall Spec.decimalDigit (String.list_ascii_of_string digits) →
  match rest with EmptyString => True | String c _ => ¬ Spec.decimalDigit c end →
  fold_left (fun acc d => acc * 10 + d) (takeDigits 10 (digits +:+ rest)) acc
  = fold_left (fun acc c => acc * 10 + (Z.of_N (N_of_ascii c) - 48))
              (String.list_ascii_of_string digits) acc.
Proof.
  intros Hdigits Hrest. revert acc.
  induction digits as [|c digits IH]; intros acc.
  - rewrite append_nil. destruct rest as [|c rest]; [done|].
    simpl. by rewrite (not_decimalDigit_radix _ Hrest).
  - apply Forall_cons in Hdigits as [Hc Hdigits].
    destruct (decimalDigit_facts _ Hc) as (Hradix & _).
    rewrite append_cons. cbn [takeDigits String.list_ascii_of_string].
    rewrite Hradix. cbn [fold_left]. by apply IH.
Qed.

Lemma decimalValue_bounds_aux l acc :
  Forall Spec.decimalDigit l → 0 ≤ acc →
  0 ≤ fold_left (fun acc c => acc * 10 + (Z.of_N (N_of_ascii c) - 48)) l acc.
Proof.
  intros Hl. revert acc. induction Hl as [|c l Hc _ IH]; intros acc Hacc; simpl.
  - done.
  - apply IH. destruct (decimalDigit_facts _ Hc) as (_ & ? & _). lia.
Qed.

Lemma decimalValue_nonneg digits :
  Forall Spec.decimalDigit (String.list_ascii_of_string digits) →
  0 ≤ Spec.decimalValue digits.
Proof. intros H. by apply decimalValue_bounds_aux. Qed.

Lemma parseInt_decimal_prefix s digits rest :
  Spec.decimalPrefixed s digits rest →
  ¬ Spec.hexMarked s →
  parseInt s = toNumber false (Spec.decimalValue digits).
Proof.
  intros (-> & Hne & Hdigits & Hrest) Hhex.
  unfold parseInt.
  destruct digits as [|c digits]; [done|].
  pose proof Hdigits as [Hc Hdigits']%Forall_cons.
  destruct (decimalDigit_facts _ Hc) as (Hradix & _ & Hws & Hsign).
  assert (trimStart (String c digits +:+ rest) = String c digits +:+ rest) as ->.
  { rewrite append_cons. simpl. by rewrite Hws. }
  assert (stripSign (String c digits +:+ rest) = (false, String c digits +:+ rest)) as ->.
  { rewrite append_cons. revert Hsign. clear.
    destruct c as [[] [] [] [] [] [] [] []]; done. }
  rewrite (stripPrefix_decimal _ Hhex).
  unfold Spec.decimalValue, mathInt.
  rewrite <- (takeDigits_fold _ rest 0 Hdigits Hrest).
  rewrite append_cons. cbn [takeDigits]. rewrite Hradix. done.
Qed.

End ParseInt.

(** C10, as stated, fails in two ways.  A cell that starts with the marker
    [0x] is read in radix 16: "0xA - blocker" begins with the decimal
    prefix "0" followed by text, and its priority is 10; "0x - none" gives
    the estimate NaN.  And a prefix above 2^53 is rounded to the nearest
    Number: the estimate of "9007199254740993 ms" is 9007199254740992. *)
Lemma C10_hex_marker_and_rounding :
  let row : gmap string string :=
    {[ "Priority" := "0xA - blocker"; "Estimate" := "0x - none" ]} in
  let long : gmap string string := {[ "Estimate" := "9007199254740993 ms" ]} in
  Spec.decimalPrefixed "0xA - blocker" "0" "xA - blocker"
  ∧ Spec.decimalValue "0" = 0%Z
  ∧ priority (normalizeRow "team-1" ∅ ∅ row) = Int 10
  ∧ Spec.decimalPrefixed "0x - none" "0" "x - none"
  ∧ estimate (normalizeRow "team-1" ∅ ∅ row) = Some NaN
  ∧ Spec.decimalPrefixed "9007199254740993 ms" "9007199254740993" " ms"
  ∧ Spec.decimalValue "9007199254740993" = 9007199254740993%Z
  ∧ estimate (normalizeRow "team-1" ∅ ∅ long) = Some (Int 9007199254740992).
Proof.
  assert (∀ c, bool_decide (Spec.decimalDigit c) = true → Spec.decimalDigit c)
    as Hyes by (intros c; apply bool_decide_eq_true_1).
  assert (∀ c, bool_decide (Spec.decimalDigit c) = false → ¬ Spec.decimalDigit c)
    as Hno by (intros c; apply bool_decide_eq_false_1).
  repeat split; try discriminate; try (by vm_compute);
    try (by apply Hno); repeat (constructor; [by apply Hyes|]); constructor.
Qed.

(** C10, amended: for every row whose Priority or Estimate value begins with
    a decimal integer prefix followed by non-numeric text, does not start
    with the marker [0x] or [0X], and whose prefix denotes an integer of at
    most 2^53, the parsed result is the integer value of that prefix: it is
    the priority, and it is the estimate, of the request. *)
Theorem C10_decimal_prefix_is_parsed targetTeamId statusMap labelMap
    (row : gmap string string) s digits rest :
  Spec.decimalPrefixed s digits rest →
  ¬ Spec.hexMarked s →
  (Spec.decimalValue digits ≤ 2 ^ 53)%Z →
  let request := normalizeRow targetTeamId statusMap labelMap row in
  (row !! "Priority" = Some s → priority request = Int (Spec.decimalValue digits))
  ∧ (row !! "Estimate" = Some s →
     estimate request = Some (Int (Spec.decimalValue digits))).
Proof.
  intros Hprefixed Hhex Hle.
  pose proof Hprefixed as (Hs & Hne & Hdigits & _).
  assert (s ≠ "") as Hfilled.
  { rewrite Hs. destruct digits; [done|]. by rewrite append_cons. }
  assert (parseInt s = Int (Spec.decimalValue digits)) as Hparse.
  { rewrite (parseInt_decimal_prefix _ _ _ Hprefixed Hhex).
    apply toNumber_exact. split; [by apply decimalValue_nonneg|done]. }
  simpl. split; intros Hrow; rewrite (field_filled _ _ _ Hrow Hfilled), Hparse.
  - unfold orElse. simpl.
    destruct (Z.eqb_spec (Spec.decimalValue digits) 0) as [-> | _]; done.
  - done.
Qed.

Lemma C10_decimal_prefix_is_parsed_witness :
  let row : gmap string string :=
    {[ "Priority" := "3 - urgent"; "Estimate" := "3 - urgent" ]} in
  priority (normalizeRow "team-1" ∅ ∅ row) = Int 3
  ∧ estimate (normalizeRow "team-1" ∅ ∅ row) = Some (Int 3).
Proof.
  intros row.
  assert (Spec.decimalPrefixed "3 - urgent" "3" " - urgent") as Hprefixed.
  { repeat split; [discriminate| |].
    - constructor; [|constructor].
      apply (bool_decide_eq_true_1 (Spec.decimalDigit "3")). reflexivity.
    - apply (bool_decide_eq_false_1 (Spec.decimalDigit " ")). reflexivity. }
  assert (¬ Spec.hexMarked "3 - urgent") as Hhex.
  { intros [r [H | H]]; discriminate H. }
  assert (Spec.decimalValue "3" ≤ 2 ^ 53)%Z as Hle by (by vm_compute).
  destruct (C10_decimal_prefix_is_parsed "team-1" ∅ ∅ row _ _ _ Hprefixed Hhex Hle)
    as [Hpriority Hestimate].
  split; [apply Hpriority | apply Hestimate]; reflexivity.
Defined.

(** ** The identifier pattern *)

Lemma hexDigit_iff c : Regex.isHexDigit c = true ↔ Spec.hexDigit c.
Proof.
  split.
  - intros H. apply (bool_decide_eq_true_1 (Spec.hexDigit c)).
    revert H. destruct c as [[] [] [] [] [] [] [] []]; by vm_compute.
  - unfold Spec.hexDigit. simpl. intros H.
    repeat (apply elem_of_cons in H as [-> | H]; [reflexivity|]).
    by apply elem_of_nil in H.
Qed.

Lemma hexDigit_word c : Regex.isHexDigit c = true → Regex.isWordChar c = true.
Proof. destruct c as [[] [] [] [] [] [] [] []]; by vm_compute. Qed.

Lemma hexRun_nil : Spec.hexRun 0 "".
Proof. split; [done | constructor]. Qed.

Lemma hexRun_cons n c s :
  Spec.hexRun (S n) (String c s) ↔ Spec.hexDigit c ∧ Spec.hexRun n s.
Proof.
  unfold Spec.hexRun. simpl. rewrite Forall_cons. split.
  - intros [[= Hlen] [Hc Hs]]. done.
  - intros [Hc [Hlen Hs]]. by rewrite Hlen.
Qed.

Lemma hexRun_inv n s :
  Spec.hexRun n s →
  match n, s with
  | O, EmptyString => True
  | S n', String c s' => Spec.hexDigit c ∧ Spec.hexRun n' s'
  | _, _ => False
  end.
Proof.
  destruct n, s; try (by intros [? _]). by intros ?%hexRun_cons.
Qed.

(** A run of hex digits, then a word boundary and a dash: the boundary
    holds because the character before the dash is a word character. *)
Lemma matchAtoms_run_dash n p a rest prev :
  Spec.hexRun n a → n ≠ 0 ∨ Regex.isWordAt prev = true →
  Regex.matchAtoms (repeat Regex.HexDigit n ++ Regex.WordBoundary :: Regex.Dash :: p)
                   prev (a +:+ String "-" rest)
  = Regex.matchAtoms p (Some "-"%char) rest.
Proof.
  revert a prev. induction n as [|n IH]; intros a prev Hrun Hprev.
  - apply hexRun_inv in Hrun. destruct a; [|done].
    destruct Hprev as [|Hprev]; [done|].
    rewrite append_nil. simpl. by rewrite Hprev.
  - apply hexRun_inv in Hrun. destruct a as [|c a]; [done|].
    destruct Hrun as [Hc%hexDigit_iff Hrun].
    rewrite append_cons. simpl. rewrite Hc. simpl.
    apply IH; [done|]. right. by apply hexDigit_word.
Qed.

Lemma uuidRegex_atoms :
  uuidRegex
  = repeat Regex.HexDigit 8 ++ Regex.WordBoundary :: Regex.Dash ::
    (repeat Regex.HexDigit 4 ++ Regex.WordBoundary :: Regex.Dash ::
    (repeat Regex.HexDigit 4 ++ Regex.WordBoundary :: Regex.Dash ::
    (repeat Regex.HexDigit 4 ++ Regex.WordBoundary :: Regex.Dash ::
     repeat Regex.HexDigit 12))).
Proof. reflexivity. Qed.

Lemma matchAtoms_run_end n a prev :
  Spec.hexRun n a → Regex.matchAtoms (repeat Regex.HexDigit n) prev a = true.
Proof.
  revert a prev. induction n as [|n IH]; intros a prev Hrun;
    apply hexRun_inv in Hrun; destruct a as [|c a]; try done.
  destruct Hrun as [Hc%hexDigit_iff Hrun]. simpl. rewrite Hc. simpl. by apply IH.
Qed.

Lemma matchAtoms_run_inv n p s prev :
  Regex.matchAtoms (repeat Regex.HexDigit n ++ p) prev s = true →
  ∃ a rest prev', s = a +:+ rest ∧ Spec.hexRun n a
                  ∧ Regex.matchAtoms p prev' rest = true.
Proof.
  revert s prev. induction n as [|n IH]; intros s prev H.
  - exists "", s, prev. split; [done|]. split; [apply hexRun_nil | done].
  - simpl in H. destruct s as [|c s]; [done|].
    apply andb_true_iff in H as [Hc H].
    destruct (IH _ _ H) as (a & rest & prev' & -> & Hrun & Hrest).
    exists (String c a), rest, prev'. split; [done|]. split; [|done].
    apply hexRun_cons. split; [by apply hexDigit_iff | done].
Qed.

Lemma matchAtoms_dash_inv p s prev :
  Regex.matchAtoms (Regex.WordBoundary :: Regex.Dash :: p) prev s = true →
  ∃ rest, s = String "-" rest ∧ Regex.matchAtoms p (Some "-"%char) rest = true.
Proof.
  simpl. intros [_ H]%andb_true_iff. destruct s as [|c s]; [done|].
  apply andb_true_iff in H as [Hc H]. apply Ascii.eqb_eq in Hc as ->. eauto.
Qed.

Lemma matchAtoms_end_inv s prev : Regex.matchAtoms [] prev s = true → s = "".
Proof. by destruct s. Qed.

Lemma append_nil_r s : s +:+ "" = s.
Proof. induction s as [|c s IH]; [done|]. by rewrite append_cons, IH. Qed.

(** The regular expression of the code accepts exactly the strings the
    specification calls identifier-shaped. *)
Lemma uuidRegex_identifierShaped s :
  Regex.test uuidRegex s = true ↔ Spec.identifierShaped s.
Proof.
  unfold Regex.test. rewrite uuidRegex_atoms. split.
  - intros H.
    apply matchAtoms_run_inv in H as (a & s1 & p1 & -> & Ha & H).
    apply matchAtoms_dash_inv in H as (s2 & -> & H).
    apply matchAtoms_run_inv in H as (b & s3 & p3 & -> & Hb & H).
    apply matchAtoms_dash_inv in H as (s4 & -> & H).
    apply matchAtoms_run_inv in H as (c & s5 & p5 & -> & Hc & H).
    apply matchAtoms_dash_inv in H as (s6 & -> & H).
    apply matchAtoms_run_inv in H as (d & s7 & p7 & -> & Hd & H).
    apply matchAtoms_dash_inv in H as (s8 & -> & H).
    rewrite <- (app_nil_r (repeat _ 12)) in H.
    apply matchAtoms_run_inv in H as (e & s9 & p9 & -> & He & H).
    apply matchAtoms_end_inv in H as ->. rewrite append_nil_r.
    by exists a, b, c, d, e.
  - intros (a & b & c & d & e & -> & Ha & Hb & Hc & Hd & He).
    rewrite !append_cons, !append_nil.
    rewrite !matchAtoms_run_dash by (done || by left).
    by apply matchAtoms_run_end.
Qed.

(** ** Claims on the team resolver *)

Lemma teamMatches_displayedAs selection t :
  teamMatches selection t = true ↔ Spec.displayedAs selection t.
Proof.
  unfold teamMatches, teamChoiceName, Spec.displayedAs.
  rewrite !orb_true_iff, !bool_decide_eq_true. tauto.
Qed.

Lemma find_first {A} (f : A → bool) pre x post :
  Forall (fun y => f y = false) pre → f x = true →
  List.find f (pre ++ x :: post) = Some x.
Proof.
  intros Hpre Hx. induction Hpre as [|y pre Hy _ IH]; simpl.
  - by rewrite Hx.
  - by rewrite Hy.
Qed.

Lemma find_nothing {A} (f : A → bool) l :
  Forall (fun y => f y = false) l → List.find f l = None.
Proof.
  intros Hl. induction Hl as [|y l Hy _ IH]; simpl; [done|]. by rewrite Hy.
Qed.

Lemma not_displayedAs selection (l : list Team) :
  Forall (fun u => ¬ Spec.displayedAs selection u) l →
  Forall (fun u => teamMatches selection u = false) l.
Proof.
  intros Hl. eapply Forall_impl; [exact Hl|]. intros u Hu. simpl.
  destruct (teamMatches selection u) eqn:E; [|done].
  by apply teamMatches_displayedAs in E.
Qed.

(** C4: a selection that matches the identifier pattern (eight hex digits,
    dash, four hex, dash, four hex, dash, four hex, dash, twelve hex, in
    either case) is returned unchanged as the team id, whatever the team
    list is: the list is not searched. *)
Theorem C4_identifier_used_as_is (teams : list Team) selection :
  Spec.identifierShaped selection →
  resolveTeam teams selection = ([UsingTeam selection], Continue selection).
Proof.
  intros Hshaped%uuidRegex_identifierShaped.
  unfold resolveTeam. by rewrite Hshaped.
Qed.

Lemma C4_identifier_used_as_is_witness :
  resolveTeam
    [ {| team_id := "9b2f0c1e-7a44-4d0b-8f3e-5c6d7e8f9a0b";
         team_key := "ENG"; team_name := "Engineering" |} ]
    "123E4567-e89b-12d3-A456-426614174000"
  = ([UsingTeam "123E4567-e89b-12d3-A456-426614174000"],
     Continue "123E4567-e89b-12d3-A456-426614174000").
Proof.
  apply C4_identifier_used_as_is.
  apply uuidRegex_identifierShaped. reflexivity.
Defined.

(** C5: for a selection that does not match the identifier pattern, the
    resolver returns the id of the first team, in the order of the list,
    whose name, key or composed "[key] name" string equals the selection;
    when no team matches it reports the unresolved selection and the process
    exits with status 1, so that the run ends there: [main] stops with
    that exit status and imports no row. *)
Theorem C5_first_match_or_fatal (teams : list Team) selection :
  ¬ Spec.identifierShaped selection →
  (∀ pre t post,
     teams = pre ++ t :: post →
     Forall (fun u => ¬ Spec.displayedAs selection u) pre →
     Spec.displayedAs selection t →
     (resolveTeam teams selection).2 = Continue (team_id t))
  ∧ (Forall (fun u => ¬ Spec.displayedAs selection u) teams →
     (resolveTeam teams selection).2 = Exit 1
     ∧ UnresolvedTeam selection ∈ (resolveTeam teams selection).1
     ∧ ∀ (World : Type) (createIssue : IssueRequest → World → creation * World)
         workflowStates issueLabels go results w,
         (main createIssue teams selection workflowStates issueLabels
                    go results w).2 = Exit 1).
Proof.
  intros Hshaped.
  assert (Regex.test uuidRegex selection = false) as Htest.
  { destruct (Regex.test uuidRegex selection) eqn:E; [|done].
    by apply uuidRegex_identifierShaped in E. }
  split.
  - intros pre t post -> Hpre%not_displayedAs Ht%teamMatches_displayedAs.
    unfold resolveTeam. rewrite Htest. simpl.
    by rewrite (find_first _ _ _ _ Hpre Ht).
  - intros Hnone%not_displayedAs.
    assert (resolveTeam teams selection
            = ([WarnNotUuid selection; AttemptNameMatch;
                UnresolvedTeam selection; CheckSelection], Exit 1)) as Hres.
    { unfold resolveTeam. rewrite Htest. simpl.
      by rewrite (find_nothing _ _ Hnone). }
    rewrite Hres. simpl. split; [done|]. split; [set_solver|].
    intros. unfold main. rewrite Hres. by destruct teams.
Qed.

Lemma C5_first_match_or_fatal_witness :
  let teams :=
    [ {| team_id := "9b2f0c1e-7a44-4d0b-8f3e-5c6d7e8f9a0b";
         team_key := "ENG"; team_name := "Engineering" |};
      {| team_id := "0a1b2c3d-4e5f-4a6b-8c7d-9e0f1a2b3c4d";
         team_key := "OPS"; team_name := "Operations" |};
      {| team_id := "ffffffff-0000-4000-8000-000000000000";
         team_key := "OPS"; team_name := "Operations (old)" |} ] in
  (resolveTeam teams "OPS").2 = Continue "0a1b2c3d-4e5f-4a6b-8c7d-9e0f1a2b3c4d"
  ∧ (resolveTeam teams "[QA] Quality").2 = Exit 1.
Proof.
  intros teams.
  assert (∀ s, Regex.test uuidRegex s = false → ¬ Spec.identifierShaped s) as Hno.
  { intros s E H%uuidRegex_identifierShaped. congruence. }
  assert (∀ s t, teamMatches s t = false → ¬ Spec.displayedAs s t) as Hmiss.
  { intros s t E H%teamMatches_displayedAs. congruence. }
  split.
  - apply (proj1 (C5_first_match_or_fatal teams "OPS" (Hno "OPS" eq_refl))
             [ {| team_id := "9b2f0c1e-7a44-4d0b-8f3e-5c6d7e8f9a0b";
                  team_key := "ENG"; team_name := "Engineering" |} ]
             {| team_id := "0a1b2c3d-4e5f-4a6b-8c7d-9e0f1a2b3c4d";
                team_key := "OPS"; team_name := "Operations" |}
             [ {| team_id := "ffffffff-0000-4000-8000-000000000000";
                  team_key := "OPS"; team_name := "Operations (old)" |} ]).
    + reflexivity.
    + repeat constructor. by apply Hmiss.
    + right. by left.
  - apply (proj2 (C5_first_match_or_fatal teams "[QA] Quality"
                    (Hno "[QA] Quality" eq_refl))).
    repeat constructor; by apply Hmiss.
Defined.

(** ** Claims on the import driver *)

Section ImportDriverProperties.

Context {World : Type}.
Variable createIssue : IssueRequest → World → creation * World.
Variables (targetTeamId : string) (statusMap labelMap : gmap string string).

Local Abbreviation loop := (importLoop createIssue targetTeamId statusMap labelMap).
Local Abbreviation step := (importRow createIssue targetTeamId statusMap labelMap).

(** A row moves exactly one counter, by one, and prints one line. *)
Lemma importRow_counts st row :
  (successCount (step st row) = S (successCount st)
   ∧ failCount (step st row) = failCount st
   ∨ successCount (step st row) = successCount st
     ∧ failCount (step st row) = S (failCount st))
  ∧ length (console (step st row)) = S (length (console st)).
Proof.
  unfold importRow.
  destruct (createIssue _ (world st)) as [[message|message|payloadId|issueUrl] w];
    simpl; rewrite length_app; simpl; split; auto with lia.
Qed.

Lemma importLoop_app st pre post :
  loop st (pre ++ post) = loop (loop st pre) post.
Proof. apply fold_left_app. Qed.

Lemma importLoop_cons st row rows : loop st (row :: rows) = loop (step st row) rows.
Proof. reflexivity. Qed.

Lemma importLoop_counts rows st :
  successCount (loop st rows) + failCount (loop st rows)
  = successCount st + failCount st + length rows
  ∧ length (console (loop st rows)) = length (console st) + length rows.
Proof.
  revert st. induction rows as [|row rows IH]; intros st.
  - simpl. lia.
  - rewrite importLoop_cons. destruct (IH (step st row)) as [-> ->].
    destruct (importRow_counts st row) as [[[-> ->] | [-> ->]] ->]; simpl; lia.
Qed.

(** A failed creation call: the message is kept in the failure line, the
    failure counter moves, the world is the one the call left. *)
Lemma importRow_failed st row message w :
  createIssue (normalizeRow targetTeamId statusMap labelMap row) (world st)
    = (CreateRejected message, w)
  ∨ createIssue (normalizeRow targetTeamId statusMap labelMap row) (world st)
    = (IssueRejected message, w) →
  step st row
  = {| successCount := successCount st;
       failCount := S (failCount st);
       console := console st
                  ++ [Failed (title (normalizeRow targetTeamId statusMap labelMap row))
                             message];
       world := w |}.
Proof. unfold importRow. by intros [-> | ->]. Qed.

End ImportDriverProperties.

(** C6: after a full run over any list of rows, successCount plus failCount
    equals the number of rows, each row having moved exactly one of the two
    counters by one; the tally printed last carries these two counts. *)
Theorem C6_counts_add_up {World : Type}
    (createIssue : IssueRequest → World → creation * World)
    targetTeamId statusMap labelMap (results : list (gmap string string)) (w : World) :
  let final := importAll createIssue targetTeamId statusMap labelMap results w in
  successCount final + failCount final = length results
  ∧ last (console final) = Some (Done (successCount final) (failCount final))
  ∧ ∀ st row,
      let st' := importRow createIssue targetTeamId statusMap labelMap st row in
      successCount st' = S (successCount st) ∧ failCount st' = failCount st
      ∨ successCount st' = successCount st ∧ failCount st' = S (failCount st).
Proof.
  simpl. split; [|split].
  - match goal with
    | |- context [importLoop _ _ _ _ ?st _] =>
        destruct (importLoop_counts createIssue targetTeamId statusMap labelMap
                                    results st) as [-> _]
    end.
    simpl. lia.
  - apply last_snoc.
  - intros st row. apply importRow_counts.
Qed.

(** C7: when the creation call of a row fails with an error, whatever the
    error, the driver keeps the message of the error in the one failure
    line it prints for the row, adds one to failCount, and goes on with the
    remaining rows in order from there; the batch is not cut short: one
    line has been printed for every row when the loop ends. *)
Theorem C7_failure_is_counted_and_skipped {World : Type}
    (createIssue : IssueRequest → World → creation * World)
    targetTeamId statusMap labelMap
    (st0 : tally World) (pre post : list (gmap string string))
    (row : gmap string string) message (w : World) :
  let before := importLoop createIssue targetTeamId statusMap labelMap st0 pre in
  let request := normalizeRow targetTeamId statusMap labelMap row in
  createIssue request (world before) = (CreateRejected message, w)
  ∨ createIssue request (world before) = (IssueRejected message, w) →
  importLoop createIssue targetTeamId statusMap labelMap st0 (pre ++ row :: post)
  = importLoop createIssue targetTeamId statusMap labelMap
      {| successCount := successCount before;
         failCount := S (failCount before);
         console := console before ++ [Failed (title request) message];
         world := w |}
      post
  ∧ length (console (importLoop createIssue targetTeamId statusMap labelMap st0
                                (pre ++ row :: post)))
    = length (console st0) + length (pre ++ row :: post).
Proof.
  intros before request Hfail. split.
  - rewrite importLoop_app, importLoop_cons. f_equal.
    by apply importRow_failed.
  - apply importLoop_counts.
Qed.

Lemma C7_failure_is_counted_and_skipped_witness :
  let run := importLoop flakyCreateIssue "team-1" ∅ (buildLookup sampleLabels) in
  let st0 := {| successCount := 0; failCount := 0; console := []; world := 0 |} in
  run st0 sampleRows
  = run {| successCount := 1; failCount := 1;
           console := [ CreatedUrl "Fix login bug"
                                   "https://linear.app/issue/Fix login bug";
                        Failed "Untitled Issue" "Network request failed" ];
           world := 2 |}
        [ {[ "Labels" := "bug, urgent" ]} ]
  ∧ length (console (run st0 sampleRows)) = 3.
Proof.
  exact (C7_failure_is_counted_and_skipped flakyCreateIssue "team-1" ∅
           (buildLookup sampleLabels)
           {| successCount := 0; failCount := 0; console := []; world := 0 |}
           [ {[ "Title" := "Fix login bug"; "Priority" := "1" ]} ]
           [ {[ "Labels" := "bug, urgent" ]} ]
           {[ "Title" := ""; "Status" := "Unknown" ]}
           "Network request failed" 2
           (or_introl eq_refl)).
Defined.

(** ** Worked examples *)

Example parseInt_plain : parseInt "42" = Int 42.
Proof. reflexivity. Qed.

Example parseInt_prefix : parseInt "3 - urgent" = Int 3.
Proof. reflexivity. Qed.

Example parseInt_signed_after_space : parseInt "  -12abc" = Int (-12).
Proof. reflexivity. Qed.

Example parseInt_hex : parseInt "0x1f" = Int 31.
Proof. reflexivity. Qed.

Example parseInt_words : parseInt "high" = NaN.
Proof. reflexivity. Qed.

Example parseInt_rounds : parseInt "9007199254740993" = Int 9007199254740992.
Proof. by vm_compute. Qed.

Example split_cell : split "," "bug, urgent" = ["bug"; " urgent"].
Proof. reflexivity. Qed.

Example split_empty_cell : split "," "" = [""].
Proof. reflexivity. Qed.

Example status_name : toLowerCase (trim "  In Progress ") = "in progress".
Proof. reflexivity. Qed.

Example buildLookup_last_write_wins :
  buildLookup [ {| node_name := "Bug"; node_id := "L1" |};
                {| node_name := "BUG"; node_id := "L2" |} ]
  = {[ "bug" := "L2" ]}.
Proof. by vm_compute. Qed.

Example resolve_composed_name :
  resolveTeam sampleTeams "[OPS] Operations"
  = ([ WarnNotUuid "[OPS] Operations"; AttemptNameMatch;
       ResolvedTeam "0a1b2c3d-4e5f-4a6b-8c7d-9e0f1a2b3c4d" ],
     Continue "0a1b2c3d-4e5f-4a6b-8c7d-9e0f1a2b3c4d").
Proof. by vm_compute. Qed.

(** The end-to-end scenario of the specification: three rows against the
    label lookup [{bug: "L1"}]. *)
Example scenario_requests :
  List.map (normalizeRow "team-1" ∅ (buildLookup sampleLabels)) sampleRows
  = [ {| teamId := "team-1"; title := "Fix login bug"; description := "";
         priority := Int 1; estimate := None; stateId := VUndefined;
         labelIds := None |};
      {| teamId := "team-1"; title := "Untitled Issue"; description := "";
         priority := Int 0; estimate := None; stateId := VUndefined;
         labelIds := None |};
      {| teamId := "team-1"; title := "Untitled Issue"; description := "";
         priority := Int 0; estimate := None; stateId := VUndefined;
         labelIds := Some [VString "L1"] |} ].
Proof. by vm_compute. Qed.

(** A whole run: the second creation call is rejected, the third row is
    still imported, and the tally is two successes and one failure. *)
Example scenario_run :
  (main flakyCreateIssue sampleTeams "ENG" sampleStates sampleLabels
             true sampleRows 0).1
  = [ WarnNotUuid "ENG"; AttemptNameMatch;
      ResolvedTeam "9b2f0c1e-7a44-4d0b-8f3e-5c6d7e8f9a0b";
      FetchingStatesAndLabels; Mapped 2 1; Importing 3;
      CreatedUrl "Fix login bug" "https://linear.app/issue/Fix login bug";
      Failed "Untitled Issue" "Network request failed";
      CreatedUrl "Untitled Issue" "https://linear.app/issue/Untitled Issue";
      Done 2 1 ].
Proof. by vm_compute. Qed.

(** * Further properties of the code *)

(** ** Strings: case and white space *)

Lemma lowerUnit_idem c : lowerUnit (lowerUnit c) = lowerUnit c.
Proof. destruct c as [[] [] [] [] [] [] [] []]; reflexivity. Qed.

Lemma lowerUnit_whiteSpace c : isWhiteSpace (lowerUnit c) = isWhiteSpace c.
Proof. destruct c as [[] [] [] [] [] [] [] []]; reflexivity. Qed.

Lemma lowerUnit_comma c : Ascii.eqb (lowerUnit c) "," = Ascii.eqb c ",".
Proof. destruct c as [[] [] [] [] [] [] [] []]; reflexivity. Qed.

Lemma toLowerCase_idem s : toLowerCase (toLowerCase s) = toLowerCase s.
Proof.
  induction s as [|c s IH]; simpl; [done|]. by rewrite lowerUnit_idem, IH.
Qed.

Lemma toLowerCase_nonempty s : s ≠ "" ↔ toLowerCase s ≠ "".
Proof. by destruct s. Qed.

Lemma trimStart_toLowerCase s : trimStart (toLowerCase s) = toLowerCase (trimStart s).
Proof.
  induction s as [|c s IH]; simpl; [done|].
  rewrite lowerUnit_whiteSpace. by destruct (isWhiteSpace c).
Qed.

Lemma trimEnd_toLowerCase s : trimEnd (toLowerCase s) = toLowerCase (trimEnd s).
Proof.
  induction s as [|c s IH]; simpl; [done|].
  rewrite IH, lowerUnit_whiteSpace.
  destruct (trimEnd s); simpl; [|done]. by destruct (isWhiteSpace c).
Qed.

Lemma trim_toLowerCase s : trim (toLowerCase s) = toLowerCase (trim s).
Proof. unfold trim. by rewrite trimStart_toLowerCase, trimEnd_toLowerCase. Qed.

Lemma split_toLowerCase s :
  split "," (toLowerCase s) = List.map toLowerCase (split "," s).
Proof.
  induction s as [|c s IH]; simpl; [done|].
  rewrite lowerUnit_comma, IH.
  destruct (Ascii.eqb c ","); simpl; [done|]. by destruct (split "," s).
Qed.

Lemma blank_nil : blank "".
Proof. constructor. Qed.

Lemma blank_cons c s : blank (String c s) ↔ isWhiteSpace c = true ∧ blank s.
Proof. unfold blank. simpl. apply (Forall_cons (fun c => isWhiteSpace c = true)). Qed.

Lemma trimStart_blank ws s : blank ws → trimStart (ws +:+ s) = trimStart s.
Proof.
  induction ws as [|c ws IH]; [done|].
  intros [Hc Hws]%blank_cons. rewrite append_cons. simpl. rewrite Hc. by apply IH.
Qed.

Lemma trimEnd_blank_only ws : blank ws → trimEnd ws = "".
Proof.
  induction ws as [|c ws IH]; [done|].
  intros [Hc Hws]%blank_cons. simpl. by rewrite (IH Hws), Hc.
Qed.

Lemma trimEnd_blank s ws : blank ws → trimEnd (s +:+ ws) = trimEnd s.
Proof.
  intros Hws. induction s as [|c s IH].
  - rewrite append_nil. by apply trimEnd_blank_only.
  - rewrite append_cons. simpl. by rewrite IH.
Qed.

Lemma trim_blank_end s ws : blank ws → trim (s +:+ ws) = trim s.
Proof.
  intros Hws. unfold trim. induction s as [|c s IH].
  - rewrite append_nil. simpl.
    rewrite <- (append_nil_r ws), (trimStart_blank ws "" Hws). done.
  - rewrite append_cons. simpl. destruct (isWhiteSpace c); [done|].
    rewrite <- append_cons. by apply trimEnd_blank.
Qed.

Lemma trim_padding ws s ws' : blank ws → blank ws' → trim (ws +:+ s +:+ ws') = trim s.
Proof.
  intros Hws Hws'. rewrite <- (trim_blank_end s ws' Hws').
  unfold trim. by rewrite trimStart_blank.
Qed.

Lemma trimEnd_idem s : trimEnd (trimEnd s) = trimEnd s.
Proof.
  induction s as [|c s IH]; simpl; [done|].
  destruct (trimEnd s) as [|c' t] eqn:E.
  - destruct (isWhiteSpace c) eqn:Ec; simpl; [done|]. by rewrite Ec.
  - simpl in *. by rewrite IH.
Qed.

(** What [trimStart] returns is empty or starts with a character that is
    not white space. *)
Lemma trimStart_head s :
  match trimStart s with
  | EmptyString => True
  | String c _ => isWhiteSpace c = false
  end.
Proof.
  induction s as [|c s IH]; simpl; [done|].
  destruct (isWhiteSpace c) eqn:E; [done|]. simpl. done.
Qed.

Lemma trimEnd_head c s : isWhiteSpace c = false → trimEnd (String c s) = String c (trimEnd s).
Proof. intros Hc. simpl. rewrite Hc. by destruct (trimEnd s). Qed.

Lemma trim_head s :
  match trim s with
  | EmptyString => True
  | String c _ => isWhiteSpace c = false
  end.
Proof.
  unfold trim. pose proof (trimStart_head s) as H.
  destruct (trimStart s) as [|c t]; [done|]. by rewrite trimEnd_head.
Qed.

Lemma trimStart_id s :
  match s with EmptyString => True | String c _ => isWhiteSpace c = false end →
  trimStart s = s.
Proof. destruct s as [|c s]; [done|]. simpl. by intros ->. Qed.

Lemma trim_idem s : trim (trim s) = trim s.
Proof.
  unfold trim at 1. rewrite (trimStart_id (trim s)) by apply trim_head.
  unfold trim. apply trimEnd_idem.
Qed.

(** ** The lookup builder *)

Lemma buildLookup_snoc nodes n :
  buildLookup (nodes ++ [n])
  = set (buildLookup nodes) (toLowerCase (node_name n)) (node_id n).
Proof. unfold buildLookup. by rewrite fold_left_app. Qed.

Lemma find_rev_snoc {A} (f : A → bool) l x :
  List.find f (rev (l ++ [x])) = if f x then Some x else List.find f (rev l).
Proof. by rewrite rev_app_distr. Qed.

(** One more node: its lower-cased name now maps to its identifier, unless
    that name is [__proto__]; the other keys are untouched. *)
Lemma buildLookup_snoc_lookup nodes n k :
  buildLookup (nodes ++ [n]) !! k
  = if bool_decide (toLowerCase (node_name n) = k)
    then (if bool_decide (k = "__proto__") then buildLookup nodes !! k
          else Some (node_id n))
    else buildLookup nodes !! k.
Proof.
  rewrite buildLookup_snoc. unfold set.
  repeat case_bool_decide; simplify_eq;
    by rewrite ?lookup_insert_eq, ?lookup_insert_ne by done.
Qed.

(** What the lookup holds under a key: the identifier of the last node
    whose lower-cased name is the key (a later node overwrites an earlier
    one), nothing when no node has that name, and never anything under
    [__proto__], whatever the nodes are called. *)
Theorem buildLookup_lookup nodes k :
  buildLookup nodes !! k
  = if bool_decide (k = "__proto__") then None
    else node_id <$> List.find (fun n => bool_decide (toLowerCase (node_name n) = k))
                               (rev nodes).
Proof.
  induction nodes as [|n nodes IH] using rev_ind.
  - change (buildLookup []) with (∅ : gmap string string).
    rewrite lookup_empty. by case_bool_decide.
  - rewrite buildLookup_snoc_lookup, find_rev_snoc, IH.
    repeat case_bool_decide; done || congruence.
Qed.

(** Every key of a lookup is in lower case, is not [__proto__], and is the
    lower-cased name of one of the nodes, whose identifier is the value. *)
Theorem buildLookup_keys_lowercase nodes k v :
  buildLookup nodes !! k = Some v →
  toLowerCase k = k ∧ k ≠ "__proto__"
  ∧ ∃ n, n ∈ nodes ∧ toLowerCase (node_name n) = k ∧ node_id n = v.
Proof.
  induction nodes as [|n nodes IH] using rev_ind.
  - change (buildLookup []) with (∅ : gmap string string). by rewrite lookup_empty.
  - rewrite buildLookup_snoc_lookup. intros Hlookup.
    assert (buildLookup nodes !! k = Some v
            ∨ (toLowerCase (node_name n) = k ∧ k ≠ "__proto__" ∧ node_id n = v))
      as [Hold | (Hname & Hproto & Hid)].
    { revert Hlookup. repeat case_bool_decide; intros; simplify_eq; auto. }
    + destruct (IH Hold) as (Hlower & Hproto & m & Hm & Hname & Hid).
      repeat split; try done. exists m. split; [|done].
      apply elem_of_app. by left.
    + split; [subst k; apply toLowerCase_idem|]. split; [done|].
      exists n. split; [|done]. apply elem_of_app. right. by left.
Qed.

(** A lookup never has more entries than there were nodes: the counts
    printed after the fetch are at most the numbers of states and labels. *)
Theorem buildLookup_size nodes : size (buildLookup nodes) ≤ length nodes.
Proof.
  induction nodes as [|n nodes IH] using rev_ind.
  - done.
  - rewrite buildLookup_snoc, length_app. simpl. unfold set.
    case_bool_decide; [lia|].
    destruct (buildLookup nodes !! toLowerCase (node_name n)) eqn:E.
    + rewrite map_size_insert_Some by done. lia.
    + rewrite map_size_insert_None by done. lia.
Qed.

(** The last node with a given lower-cased name is the one the lookup
    keeps. *)
Lemma buildLookup_last_wins pre n post :
  toLowerCase (node_name n) ≠ "__proto__" →
  Forall (fun m => toLowerCase (node_name m) ≠ toLowerCase (node_name n)) post →
  buildLookup (pre ++ n :: post) !! toLowerCase (node_name n) = Some (node_id n).
Proof.
  intros Hproto. induction post as [|m post IH] using rev_ind; intros Hpost.
  - rewrite buildLookup_snoc_lookup.
    by rewrite bool_decide_eq_true_2, bool_decide_eq_false_2.
  - apply Forall_app in Hpost as [Hpost [Hm _]%Forall_cons].
    rewrite app_comm_cons, app_assoc, buildLookup_snoc_lookup.
    rewrite bool_decide_eq_false_2 by done. by apply IH.
Qed.

(** ** The row normaliser *)

Lemma field_insert (row : gmap string string) k s :
  field (<[k := s]> row) k = if JsString.truthy s then Some s else None.
Proof. unfold field. by rewrite lookup_insert_eq. Qed.

Lemma field_insert_ne (row : gmap string string) k k' s :
  k ≠ k' → field (<[k := s]> row) k' = field row k'.
Proof. intros Hne. unfold field. by rewrite lookup_insert_ne. Qed.

(** A filled [Status] cell that equals the name of a workflow state up to
    letter case and surrounding white space gets the identifier of that
    state (the last one of that name, not called [__proto__]). *)
Theorem status_matches_state_name targetTeamId labelMap (row : gmap string string)
    pre n post s :
  toLowerCase (node_name n) ≠ "__proto__" →
  Forall (fun m => toLowerCase (node_name m) ≠ toLowerCase (node_name n)) post →
  row !! "Status" = Some s → s ≠ "" →
  toLowerCase (trim s) = toLowerCase (node_name n) →
  stateId (normalizeRow targetTeamId (buildLookup (pre ++ n :: post)) labelMap row)
  = VString (node_id n).
Proof.
  intros Hproto Hpost Hrow Hs Hname.
  apply (stateId_known _ _ _ _ s); [done..|].
  rewrite Hname. by apply buildLookup_last_wins.
Qed.

Lemma labelNames_toLowerCase s :
  List.map (fun t => toLowerCase (trim t)) (split "," s)
  = List.map trim (split "," (toLowerCase s)).
Proof.
  rewrite split_toLowerCase, List.map_map.
  apply List.map_ext. intros t. by rewrite trim_toLowerCase.
Qed.

(** Letter case does not matter in the [Status] and [Labels] cells: two
    texts with the same lower-case form give the same stateId and the same
    labelIds. *)
Theorem cells_case_insensitive targetTeamId statusMap labelMap
    (row : gmap string string) s1 s2 :
  toLowerCase s1 = toLowerCase s2 →
  stateId (normalizeRow targetTeamId statusMap labelMap (<["Status" := s1]> row))
  = stateId (normalizeRow targetTeamId statusMap labelMap (<["Status" := s2]> row))
  ∧ labelIds (normalizeRow targetTeamId statusMap labelMap (<["Labels" := s1]> row))
    = labelIds (normalizeRow targetTeamId statusMap labelMap (<["Labels" := s2]> row)).
Proof.
  intros Hcase.
  assert (JsString.truthy s1 = JsString.truthy s2) as Htruthy.
  { destruct s1, s2; done. }
  split; simpl; rewrite !field_insert, Htruthy; destruct (JsString.truthy s2); try done.
  - by rewrite <- !trim_toLowerCase, Hcase.
  - by rewrite !labelNames_toLowerCase, Hcase.
Qed.

(** White space around a non-empty status text does not change the
    stateId. *)
Theorem status_padding_ignored targetTeamId statusMap labelMap
    (row : gmap string string) ws s ws' :
  blank ws → blank ws' → s ≠ "" →
  stateId (normalizeRow targetTeamId statusMap labelMap
             (<["Status" := ws +:+ s +:+ ws']> row))
  = stateId (normalizeRow targetTeamId statusMap labelMap (<["Status" := s]> row)).
Proof.
  intros Hws Hws' Hs. simpl. rewrite !field_insert.
  assert (JsString.truthy (ws +:+ s +:+ ws') = true) as ->.
  { destruct ws; [|done]. rewrite append_nil. by destruct s. }
  assert (JsString.truthy s = true) as -> by (by destruct s).
  by rewrite trim_padding.
Qed.

(** The request depends on the six columns the loop reads and on nothing
    else: adding, changing or removing any other column leaves it as it is. *)
Theorem other_columns_ignored targetTeamId statusMap labelMap
    (row : gmap string string) k v :
  k ∉ ["Title"; "Description"; "Priority"; "Estimate"; "Status"; "Labels"] →
  normalizeRow targetTeamId statusMap labelMap (<[k := v]> row)
  = normalizeRow targetTeamId statusMap labelMap row
  ∧ normalizeRow targetTeamId statusMap labelMap (delete k row)
    = normalizeRow targetTeamId statusMap labelMap row.
Proof.
  intros Hk.
  assert (∀ c, c ∈ ["Title"; "Description"; "Priority"; "Estimate"; "Status"; "Labels"]
               → k ≠ c) as Hne by (intros c Hc ->; done).
  unfold normalizeRow, field. split.
  - rewrite !lookup_insert_ne by (apply Hne; set_solver). done.
  - rewrite !lookup_delete_ne by (apply Hne; set_solver). done.
Qed.

(** The title of a request is never empty: it is the [Title] cell or the
    default; the description is the [Description] cell, empty when the
    column is missing; the team is the resolved one. *)
Theorem title_never_empty targetTeamId statusMap labelMap (row : gmap string string) :
  let request := normalizeRow targetTeamId statusMap labelMap row in
  title request ≠ ""
  ∧ (row !! "Title" = Some (title request) ∨ title request = "Untitled Issue")
  ∧ description request = default "" (row !! "Description")
  ∧ teamId request = targetTeamId.
Proof.
  simpl. unfold field.
  destruct (row !! "Title") as [[|c t]|], (row !! "Description") as [[|c' d]|];
    simpl; repeat split; try done; (by left) || (by right).
Qed.

Lemma orElse_zero n : orElse n (Int 0) ≠ NaN ∧ orElse n (Int 0) ≠ NegZero.
Proof.
  unfold orElse. destruct n as [| |z| |]; simpl; try done.
  by destruct (z =? 0)%Z.
Qed.

(** The priority of a request is never NaN nor negative zero: a text that
    does not parse, like a missing column, gives 0. *)
Theorem priority_never_nan targetTeamId statusMap labelMap (row : gmap string string) :
  let request := normalizeRow targetTeamId statusMap labelMap row in
  priority request ≠ NaN
  ∧ priority request ≠ NegZero
  ∧ (∀ s, row !! "Priority" = Some s → parseInt s = NaN → priority request = Int 0)
  ∧ (row !! "Priority" = None → priority request = Int 0).
Proof.
  simpl. repeat split.
  - destruct (field row "Priority") as [s|]; [|done]. apply orElse_zero.
  - destruct (field row "Priority") as [s|]; [|done]. apply orElse_zero.
  - intros s Hrow Hnan. unfold field. rewrite Hrow.
    destruct (JsString.truthy s); [|done]. by rewrite Hnan.
  - intros Hrow. by rewrite (field_missing _ _ Hrow).
Qed.

Lemma pushLabels_truthy labelMap names :
  Forall (fun v => JsObject.truthy v = true) (pushLabels labelMap names)
  ∧ length (pushLabels labelMap names) ≤ length names.
Proof.
  induction names as [|name names [IH1 IH2]].
  - split; [constructor | done].
  - rewrite pushLabels_cons.
    destruct (JsObject.truthy (get labelMap name)) eqn:E; simpl.
    + split; [by constructor | lia].
    + split; [done | lia].
Qed.

(** When a request carries labelIds, the list is not empty, none of its
    elements is [undefined] or an empty string, and it has at most one
    element per comma-separated token of a non-empty [Labels] cell. *)
Theorem labelIds_never_empty targetTeamId statusMap labelMap
    (row : gmap string string) ids :
  labelIds (normalizeRow targetTeamId statusMap labelMap row) = Some ids →
  ids ≠ []
  ∧ Forall (fun v => JsObject.truthy v = true) ids
  ∧ ∃ cell, row !! "Labels" = Some cell ∧ cell ≠ ""
            ∧ length ids ≤ length (split "," cell).
Proof.
  simpl. destruct (field row "Labels") as [cell|] eqn:Hfield; [|done].
  apply field_Some_inv in Hfield as [Hrow Hcell].
  pose proof (pushLabels_truthy labelMap
                (List.map (fun s => toLowerCase (trim s)) (split "," cell)))
    as [Htruthy Hlen].
  rewrite length_map in Hlen.
  destruct (pushLabels _ _) as [|v l] eqn:E; [done|].
  simpl. intros [= <-]. split; [done|]. split; [done|]. by exists cell.
Qed.

(** ** The team prompt and the resolver *)

Lemma teamChoiceName_not_uuid t : Regex.test uuidRegex (teamChoiceName t) = false.
Proof. reflexivity. Qed.

Lemma resolveTeam_exit_code (teams : list Team) selection code :
  (resolveTeam teams selection).2 = Exit code → code = 1%Z.
Proof.
  unfold resolveTeam. destruct (Regex.test uuidRegex selection); simpl; [done|].
  destruct (List.find _ teams); simpl; [done|]. by intros [= <-].
Qed.

(** A selection that is not taken for an identifier and is displayed by
    some team of the list resolves to the first such team. *)
Lemma resolveTeam_by_name (teams : list Team) selection t0 :
  Regex.test uuidRegex selection = false →
  t0 ∈ teams → teamMatches selection t0 = true →
  ∃ t, t ∈ teams ∧ teamMatches selection t = true
       ∧ (resolveTeam teams selection).2 = Continue (team_id t).
Proof.
  intros Htest Hin%list_elem_of_In Hmatch. unfold resolveTeam. rewrite Htest. simpl.
  destruct (List.find (teamMatches selection) teams) as [t|] eqn:Hfind; simpl.
  - apply find_some in Hfind as [Ht Hmt]. exists t.
    split; [by apply list_elem_of_In|]. by split.
  - by rewrite (find_none _ _ Hfind t0 Hin) in Hmatch.
Qed.

(** The resolver never makes up a team: the id it goes on with is the
    selection itself when that is identifier-shaped, else the id of a team
    of the list displayed as the selection; and it exits, with status 1,
    only when the selection is not identifier-shaped and no team of the list
    is displayed as it. *)
Theorem resolveTeam_sound (teams : list Team) selection :
  match (resolveTeam teams selection).2 with
  | Continue targetTeamId =>
      Spec.identifierShaped selection ∧ targetTeamId = selection
      ∨ ¬ Spec.identifierShaped selection
        ∧ ∃ t, t ∈ teams ∧ Spec.displayedAs selection t ∧ team_id t = targetTeamId
  | Exit code =>
      code = 1%Z
      ∧ ¬ Spec.identifierShaped selection
      ∧ ∀ t, t ∈ teams → ¬ Spec.displayedAs selection t
  end.
Proof.
  unfold resolveTeam.
  destruct (Regex.test uuidRegex selection) eqn:Htest; simpl.
  - left. split; [by apply uuidRegex_identifierShaped | done].
  - assert (¬ Spec.identifierShaped selection) as Hshaped.
    { intros H%uuidRegex_identifierShaped. congruence. }
    destruct (List.find _ teams) as [t|] eqn:Hfind; simpl.
    + right. split; [done|]. apply find_some in Hfind as [Hin Ht].
      exists t. split; [by apply list_elem_of_In|].
      split; [by apply teamMatches_displayedAs | done].
    + split; [done|]. split; [done|].
      intros t Hin%list_elem_of_In Ht%teamMatches_displayedAs.
      by rewrite (find_none _ _ Hfind t Hin) in Ht.
Qed.

(** Whatever the prompt hands back for an entry it offered can be resolved.
    The display name of an entry is never taken for an identifier and
    resolves to a team displayed under that name, which is the team of the
    entry when no other team shares the display string; the value of an
    entry, when it is identifier-shaped, resolves to itself. *)
Theorem teamChoices_resolve (teams : list Team) choice :
  choice ∈ teamChoices teams →
  (∃ t, t ∈ teams
        ∧ Spec.displayedAs (choice_name choice) t
        ∧ (resolveTeam teams (choice_name choice)).2 = Continue (team_id t)
        ∧ ((∀ u, u ∈ teams → Spec.displayedAs (choice_name choice) u →
                 team_id u = choice_value choice) →
           (resolveTeam teams (choice_name choice)).2
           = Continue (choice_value choice)))
  ∧ (Spec.identifierShaped (choice_value choice) →
     (resolveTeam teams (choice_value choice)).2 = Continue (choice_value choice)).
Proof.
  intros [t0 [<- Hin%list_elem_of_In]]%list_elem_of_In%in_map_iff. simpl. split.
  - assert (teamMatches (teamChoiceName t0) t0 = true) as Hown.
    { apply teamMatches_displayedAs. right. by right. }
    destruct (resolveTeam_by_name teams _ t0 (teamChoiceName_not_uuid t0) Hin Hown)
      as (t & Ht & Hdisp%teamMatches_displayedAs & Hres).
    exists t. repeat split; try done.
    intros Hunique. by rewrite Hres, (Hunique t Ht Hdisp).
  - intros Hshaped%uuidRegex_identifierShaped.
    unfold resolveTeam. by rewrite Hshaped.
Qed.

(** ** The import loop *)

Section ImportLoopProperties.

Context {World : Type}.
Variable createIssue : IssueRequest → World → creation * World.
Variables (targetTeamId : string) (statusMap labelMap : gmap string string).

Local Abbreviation loop := (importLoop createIssue targetTeamId statusMap labelMap).
Local Abbreviation step := (importRow createIssue targetTeamId statusMap labelMap).
Local Abbreviation request := (normalizeRow targetTeamId statusMap labelMap).

(** What one iteration does to the console and to the world. *)
Lemma importRow_line st row :
  ∃ e, console (step st row) = console st ++ [e]
       ∧ lineTitle e = Some (title (request row))
       ∧ isCreatedLine e = negb (isFailedLine e)
       ∧ successCount (step st row)
         = successCount st + (if isCreatedLine e then 1 else 0)
       ∧ failCount (step st row) = failCount st + (if isFailedLine e then 1 else 0)
       ∧ world (step st row) = (createIssue (request row) (world st)).2.
Proof.
  unfold importRow.
  destruct (createIssue _ (world st)) as [[message|message|payloadId|issueUrl] w];
    simpl; eexists; (split; [reflexivity|]); simpl; repeat split; lia.
Qed.

Lemma importLoop_titles rows st :
  omap lineTitle (console (loop st rows))
  = omap lineTitle (console st) ++ List.map (fun row => title (request row)) rows.
Proof.
  revert st. induction rows as [|row rows IH]; intros st.
  - simpl. by rewrite app_nil_r.
  - rewrite importLoop_cons, IH.
    destruct (importRow_line st row) as (e & -> & He & _).
    rewrite omap_app. simpl. rewrite He. by rewrite <- app_assoc.
Qed.

Lemma importLoop_world rows st :
  world (loop st rows)
  = fold_left (fun w row => (createIssue (request row) w).2) rows (world st).
Proof.
  revert st. induction rows as [|row rows IH]; intros st; [done|].
  rewrite importLoop_cons, IH. simpl.
  by destruct (importRow_line st row) as (e & _ & _ & _ & _ & _ & ->).
Qed.

Lemma importLoop_tally rows st :
  successCount st = length (List.filter isCreatedLine (console st)) →
  failCount st = length (List.filter isFailedLine (console st)) →
  successCount (loop st rows) = length (List.filter isCreatedLine (console (loop st rows)))
  ∧ failCount (loop st rows) = length (List.filter isFailedLine (console (loop st rows))).
Proof.
  revert st. induction rows as [|row rows IH]; intros st Hs Hf; [done|].
  rewrite importLoop_cons.
  destruct (importRow_line st row) as (e & Hline & _ & Hce & Hs' & Hf' & _).
  apply IH; rewrite Hline, ?Hs', ?Hf', List.filter_app, length_app; simpl;
    destruct (isFailedLine e); simpl in Hce; rewrite ?Hce; simpl; lia.
Qed.

End ImportLoopProperties.

(** The console shows one per-row line for each row, in the order of the
    rows, each about the title of the request of its row. *)
Theorem console_in_row_order {World : Type}
    (createIssue : IssueRequest → World → creation * World)
    targetTeamId statusMap labelMap (results : list (gmap string string)) (w : World) :
  omap lineTitle
       (console (importAll createIssue targetTeamId statusMap labelMap results w))
  = List.map (fun row => title (normalizeRow targetTeamId statusMap labelMap row))
             results.
Proof.
  unfold importAll. simpl. rewrite omap_app, importLoop_titles. simpl.
  by rewrite app_nil_r.
Qed.

(** The two counters of the final tally are the numbers of success lines
    and of failure lines printed. *)
Theorem tally_counts_lines {World : Type}
    (createIssue : IssueRequest → World → creation * World)
    targetTeamId statusMap labelMap (results : list (gmap string string)) (w : World) :
  let final := importAll createIssue targetTeamId statusMap labelMap results w in
  successCount final = length (List.filter isCreatedLine (console final))
  ∧ failCount final = length (List.filter isFailedLine (console final)).
Proof.
  unfold importAll. simpl. rewrite !List.filter_app, !length_app. simpl.
  rewrite !Nat.add_0_r. by apply importLoop_tally.
Qed.

(** The creation calls are made one per row, in the order of the rows,
    each on the workspace as the previous call left it. *)
Theorem calls_in_row_order {World : Type}
    (createIssue : IssueRequest → World → creation * World)
    targetTeamId statusMap labelMap (results : list (gmap string string)) (w : World) :
  world (importAll createIssue targetTeamId statusMap labelMap results w)
  = fold_left
      (fun w row =>
         (createIssue (normalizeRow targetTeamId statusMap labelMap row) w).2)
      results w.
Proof. unfold importAll. simpl. by rewrite importLoop_world. Qed.

(** ** The whole program *)

(** How [main] ends.  It exits with status 1 exactly on a failed
    connection, an empty file scan, an empty team list or an unresolved
    team; with status 0 exactly when all of these passed and the
    confirmation was declined; otherwise it imports the rows of the chosen
    file into the resolved team, and the counters add up to their number. *)
Theorem program_exit_status {World : Type}
    (createIssue : IssueRequest → World → creation * World)
    promptedKey viewer csvFiles filePath readCsv
    (teams : list Team) selection workflowStates issueLabels go (w : World) :
  match (program createIssue promptedKey viewer csvFiles filePath readCsv
                 teams selection workflowStates issueLabels go w).2 with
  | Exit code =>
      code = 1%Z
      ∧ (viewer promptedKey = None ∨ csvFiles = [] ∨ teams = []
         ∨ (resolveTeam teams selection).2 = Exit 1)
      ∨ code = 0%Z ∧ go = false
        ∧ is_Some (viewer promptedKey) ∧ csvFiles ≠ [] ∧ teams ≠ []
        ∧ ∃ targetTeamId, (resolveTeam teams selection).2 = Continue targetTeamId
  | Continue final =>
      go = true
      ∧ is_Some (viewer promptedKey) ∧ csvFiles ≠ [] ∧ teams ≠ []
      ∧ (∃ targetTeamId,
           (resolveTeam teams selection).2 = Continue targetTeamId
           ∧ final = importAll createIssue targetTeamId
                       (buildLookup (workflowStates targetTeamId))
                       (buildLookup issueLabels) (readCsv filePath) w)
      ∧ successCount final + failCount final = length (readCsv filePath)
  end.
Proof.
  unfold program. simpl.
  destruct (viewer promptedKey) as [viewerName|]; simpl; [|left; auto].
  destruct csvFiles as [|file files]; simpl; [left; auto|].
  unfold main. destruct teams as [|t teams']; simpl; [left; auto 6|].
  pose proof (resolveTeam_exit_code (t :: teams') selection) as Hcode.
  destruct (resolveTeam (t :: teams') selection) as [out [targetTeamId|code]];
    simpl in *.
  - destruct go; simpl.
    + repeat split; eauto.
      destruct (importLoop_counts createIssue targetTeamId
                  (buildLookup (workflowStates targetTeamId))
                  (buildLookup issueLabels) (readCsv filePath)
                  {| successCount := 0; failCount := 0;
                     console := [Importing (length (readCsv filePath))];
                     world := w |}) as [-> _].
      simpl. lia.
    + right. repeat split; eauto.
  - rewrite (Hcode code eq_refl). left. auto 6.
Qed.

(** ** The key prompt *)

Lemma startsWith_prefix s searchString :
  startsWith s searchString = true ↔ ∃ rest, s = searchString +:+ rest.
Proof.
  revert s. induction searchString as [|p ps IH]; intros s; simpl.
  - split; [|done]. intros _. exists s. by rewrite append_nil.
  - destruct s as [|c s].
    + split; [done|]. intros [rest Hrest]. by rewrite append_cons in Hrest.
    + rewrite andb_true_iff, Ascii.eqb_eq, IH. split.
      * intros [-> [rest ->]]. exists rest. by rewrite append_cons.
      * intros [rest Hrest]. rewrite append_cons in Hrest.
        injection Hrest as -> ->. split; [done|]. by exists rest.
Qed.

(** The key prompt accepts exactly the inputs that start with
    [lin_api_]. *)
Theorem validate_accepts input :
  validate input = Accepted ↔ ∃ rest, input = "lin_api_" +:+ rest.
Proof.
  unfold validate. rewrite <- startsWith_prefix.
  by destruct (startsWith input "lin_api_").
Qed.

(** ** Splitting a cell *)

Lemma split_nonempty sep s : split sep s ≠ [].
Proof.
  destruct s as [|c s]; simpl; [done|].
  destruct (Ascii.eqb c sep); [done|]. by destruct (split sep s).
Qed.

Lemma join_cons_head sep c h t :
  join sep (String c h :: t) = String c (join sep (h :: t)).
Proof. by destruct t. Qed.

(** Splitting loses nothing: joining the tokens with the separator gives
    the cell back, and no token contains the separator. *)
Theorem split_join sep s :
  join sep (split sep s) = s
  ∧ Forall (fun token => sep ∉ String.list_ascii_of_string token) (split sep s).
Proof.
  induction s as [|c s [IHjoin IHtokens]]; simpl.
  - split; [done|]. constructor; [apply not_elem_of_nil | constructor].
  - pose proof (split_nonempty sep s) as Hsplit.
    destruct (Ascii.eqb_spec c sep) as [-> | Hne].
    + split.
      * destruct (split sep s) as [|h t]; [done|]. by rewrite <- IHjoin.
      * constructor; [apply not_elem_of_nil | done].
    + destruct (split sep s) as [|h t]; [done|]. split.
      * by rewrite join_cons_head, IHjoin.
      * apply Forall_cons in IHtokens as [Hh Ht]. constructor; [|done].
        simpl. apply not_elem_of_cons. split; [congruence | done].
Qed.

(** ** Numeric cells *)

(** White space before the text of a numeric cell is skipped. *)
Theorem numeric_cell_leading_blank targetTeamId statusMap labelMap
    (row : gmap string string) ws s :
  blank ws → s ≠ "" →
  parseInt (ws +:+ s) = parseInt s
  ∧ priority (normalizeRow targetTeamId statusMap labelMap
                (<["Priority" := ws +:+ s]> row))
    = priority (normalizeRow targetTeamId statusMap labelMap (<["Priority" := s]> row))
  ∧ estimate (normalizeRow targetTeamId statusMap labelMap
                (<["Estimate" := ws +:+ s]> row))
    = estimate (normalizeRow targetTeamId statusMap labelMap (<["Estimate" := s]> row)).
Proof.
  intros Hws Hs.
  assert (parseInt (ws +:+ s) = parseInt s) as Hparse.
  { unfold parseInt. by rewrite trimStart_blank. }
  assert (JsString.truthy (ws +:+ s) = true) as Hpadded.
  { destruct ws; [|done]. rewrite append_nil. by destruct s. }
  assert (JsString.truthy s = true) as Hfilled by (by destruct s).
  split; [done|].
  split; simpl; by rewrite !field_insert, Hpadded, Hfilled, Hparse.
Qed.

Lemma parseInt_not_a_number s :
  match trimStart s with
  | EmptyString => True
  | String c _ => ¬ Spec.decimalDigit c ∧ c ≠ "+"%char ∧ c ≠ "-"%char
  end →
  parseInt s = NaN.
Proof.
  unfold parseInt. destruct (trimStart s) as [|c r]; [done|].
  intros (Hdigit & Hplus & Hminus).
  assert (stripSign (String c r) = (false, String c r)) as ->.
  { revert Hplus Hminus. clear.
    destruct c as [[] [] [] [] [] [] [] []]; done. }
  assert (stripPrefix (String c r) = (10%Z, String c r)) as ->.
  { assert (c ≠ "0"%char) as Hzero.
    { intros ->. apply Hdigit. unfold Spec.decimalDigit. simpl. by left. }
    revert Hzero. clear. destruct c as [[] [] [] [] [] [] [] []]; done. }
  simpl. by rewrite (not_decimalDigit_radix _ Hdigit).
Qed.

(** A non-empty numeric cell whose first character after leading white
    space is neither a digit nor a sign, or that is all white space, gives
    the priority 0 and the estimate NaN. *)
Theorem text_cell_not_a_number targetTeamId statusMap labelMap
    (row : gmap string string) s :
  s ≠ "" →
  match trimStart s with
  | EmptyString => True
  | String c _ => ¬ Spec.decimalDigit c ∧ c ≠ "+"%char ∧ c ≠ "-"%char
  end →
  priority (normalizeRow targetTeamId statusMap labelMap (<["Priority" := s]> row))
  = Int 0
  ∧ estimate (normalizeRow targetTeamId statusMap labelMap (<["Estimate" := s]> row))
    = Some NaN.
Proof.
  intros Hs Htext%parseInt_not_a_number.
  assert (JsString.truthy s = true) as Hfilled by (by destruct s).
  split; simpl; by rewrite field_insert, Hfilled, Htext.
Qed.

(** ** The properties above at sample inputs *)

Lemma buildLookup_keys_lowercase_witness :
  toLowerCase "bug" = "bug" ∧ "bug" ≠ "__proto__"
  ∧ ∃ n, n ∈ sampleLabels ∧ toLowerCase (node_name n) = "bug" ∧ node_id n = "L1".
Proof. apply (buildLookup_keys_lowercase sampleLabels "bug" "L1"). by vm_compute. Defined.

Lemma status_matches_state_name_witness :
  stateId (normalizeRow "team-1" (buildLookup (sampleStates "team-1")) ∅
             {[ "Status" := "  in PROGRESS " ]})
  = VString "S2".
Proof.
  apply (status_matches_state_name "team-1" ∅ {[ "Status" := "  in PROGRESS " ]}
           [ {| node_name := "Todo"; node_id := "S1" |} ]
           {| node_name := "In Progress"; node_id := "S2" |} []
           "  in PROGRESS ").
  - discriminate.
  - constructor.
  - reflexivity.
  - discriminate.
  - reflexivity.
Defined.

Lemma cells_case_insensitive_witness :
  let labelMap := buildLookup sampleLabels in
  stateId (normalizeRow "team-1" ∅ labelMap (<["Status" := "Bug, URGENT"]> ∅))
  = stateId (normalizeRow "team-1" ∅ labelMap (<["Status" := "bug, urgent"]> ∅))
  ∧ labelIds (normalizeRow "team-1" ∅ labelMap (<["Labels" := "Bug, URGENT"]> ∅))
    = labelIds (normalizeRow "team-1" ∅ labelMap (<["Labels" := "bug, urgent"]> ∅)).
Proof. intros labelMap. apply cells_case_insensitive. reflexivity. Defined.

Lemma status_padding_ignored_witness :
  let statusMap := buildLookup (sampleStates "team-1") in
  stateId (normalizeRow "team-1" statusMap ∅ (<["Status" := "  " +:+ "Todo" +:+ " "]> ∅))
  = stateId (normalizeRow "team-1" statusMap ∅ (<["Status" := "Todo"]> ∅)).
Proof.
  intros statusMap. apply status_padding_ignored.
  - repeat constructor.
  - repeat constructor.
  - discriminate.
Defined.

Lemma other_columns_ignored_witness :
  let row : gmap string string := {[ "Title" := "Fix login bug" ]} in
  normalizeRow "team-1" ∅ ∅ (<["Assignee" := "bryan"]> row) = normalizeRow "team-1" ∅ ∅ row
  ∧ normalizeRow "team-1" ∅ ∅ (delete "Assignee" row) = normalizeRow "team-1" ∅ ∅ row.
Proof.
  intros row. apply other_columns_ignored.
  intros Hin. repeat (apply elem_of_cons in Hin as [Heq | Hin]; [discriminate Heq|]).
  by apply elem_of_nil in Hin.
Defined.

Lemma priority_never_nan_witness :
  priority (normalizeRow "team-1" ∅ ∅ {[ "Priority" := "high" ]}) = Int 0
  ∧ priority (normalizeRow "team-1" ∅ ∅ {[ "Title" := "Fix login bug" ]}) = Int 0.
Proof.
  split.
  - destruct (priority_never_nan "team-1" ∅ ∅ {[ "Priority" := "high" ]})
      as (_ & _ & Htext & _).
    apply (Htext "high"); reflexivity.
  - destruct (priority_never_nan "team-1" ∅ ∅ {[ "Title" := "Fix login bug" ]})
      as (_ & _ & _ & Hmissing).
    apply Hmissing. reflexivity.
Defined.

Lemma labelIds_never_empty_witness :
  [VString "L1"] ≠ []
  ∧ Forall (fun v => JsObject.truthy v = true) [VString "L1"]
  ∧ ∃ cell, ({[ "Labels" := "bug, urgent" ]} : gmap string string) !! "Labels" = Some cell
            ∧ cell ≠ "" ∧ length [VString "L1"] ≤ length (split "," cell).
Proof.
  apply (labelIds_never_empty "team-1" ∅ (buildLookup sampleLabels)
           {[ "Labels" := "bug, urgent" ]} [VString "L1"]).
  by vm_compute.
Defined.

Lemma labelIds_resolved_witness :
  labelIds (normalizeRow "team-1" ∅ {[ "bug" := "L1" ]}
              {[ "Labels" := "bug, urgent, Bug" ]})
  = Spec.collapse (Spec.resolvedLabels {[ "bug" := "L1" ]} "bug, urgent, Bug").
Proof.
  apply (labelIds_resolved "team-1" ∅ {[ "bug" := "L1" ]}
           {[ "Labels" := "bug, urgent, Bug" ]} "bug, urgent, Bug").
  - reflexivity.
  - discriminate.
  - intros token Hin _. simpl in Hin.
    repeat (apply elem_of_cons in Hin as [-> | Hin]; [reflexivity|]).
    by apply elem_of_nil in Hin.
  - intros name v [_ <-]%lookup_singleton_Some. discriminate.
Defined.

Lemma stateId_unknown_witness :
  stateId (normalizeRow "team-1" (buildLookup (sampleStates "team-1")) ∅
             {[ "Title" := ""; "Status" := "Unknown" ]})
  = VUndefined.
Proof.
  apply (stateId_unknown "team-1" (buildLookup (sampleStates "team-1")) ∅
           {[ "Title" := ""; "Status" := "Unknown" ]} "Unknown").
  - reflexivity.
  - by vm_compute.
  - reflexivity.
Defined.

Lemma teamChoices_resolve_witness :
  (resolveTeam sampleTeams "[OPS] Operations").2
  = Continue "0a1b2c3d-4e5f-4a6b-8c7d-9e0f1a2b3c4d"
  ∧ (resolveTeam sampleTeams "0a1b2c3d-4e5f-4a6b-8c7d-9e0f1a2b3c4d").2
    = Continue "0a1b2c3d-4e5f-4a6b-8c7d-9e0f1a2b3c4d".
Proof.
  assert ({| choice_name := "[OPS] Operations";
             choice_value := "0a1b2c3d-4e5f-4a6b-8c7d-9e0f1a2b3c4d" |}
          ∈ teamChoices sampleTeams) as Hin.
  { apply list_elem_of_In. simpl. right. left. reflexivity. }
  destruct (teamChoices_resolve sampleTeams _ Hin) as [(t & _ & _ & _ & Hown) Hvalue].
  split.
  - apply Hown. intros u Hu Hdisp.
    repeat (apply elem_of_cons in Hu as [-> | Hu]).
    + exfalso. apply teamMatches_displayedAs in Hdisp. discriminate Hdisp.
    + reflexivity.
    + by apply elem_of_nil in Hu.
  - apply Hvalue. apply uuidRegex_identifierShaped. reflexivity.
Defined.

Lemma numeric_cell_leading_blank_witness :
  parseInt (" " +:+ "3") = parseInt "3"
  ∧ priority (normalizeRow "team-1" ∅ ∅ (<["Priority" := " " +:+ "3"]> ∅))
    = priority (normalizeRow "team-1" ∅ ∅ (<["Priority" := "3"]> ∅))
  ∧ estimate (normalizeRow "team-1" ∅ ∅ (<["Estimate" := " " +:+ "3"]> ∅))
    = estimate (normalizeRow "team-1" ∅ ∅ (<["Estimate" := "3"]> ∅)).
Proof.
  apply numeric_cell_leading_blank.
  - repeat constructor.
  - discriminate.
Defined.

Lemma text_cell_not_a_number_witness :
  priority (normalizeRow "team-1" ∅ ∅ (<["Priority" := "high"]> ∅)) = Int 0
  ∧ estimate (normalizeRow "team-1" ∅ ∅ (<["Estimate" := "high"]> ∅)) = Some NaN.
Proof.
  apply text_cell_not_a_number.
  - discriminate.
  - simpl. split; [|split; discriminate].
    apply (bool_decide_eq_false_1 (Spec.decimalDigit "h")). reflexivity.
Defined.
